(** * vue-active-view: a shallow embedding of [src/vue-active-view.js]

    The directive factory [activeView] closes over four mutable variables
    ([isBound], [elements], [oldActive], [scrollTimeout]) and talks to the
    browser through [document], [window] and [classList].  The embedding
    has three layers:

    - [JS]: the fragment of the language semantics the source relies on -
      numbers with [NaN] and the infinities, primitive values and their
      coercions ([typeof], [ToNumber], [parseFloat], relational operators),
      and ordinary objects used as maps, with the property enumeration
      order of [for ... in];
    - [Host]: the browser as the code sees it - element geometry, class
      lists with their token validation, the scroll listener and timers;
    - [ActiveView]: the source itself, function by function.

    Modelling conventions.  Numbers are IEEE 754 binary64 values with the
    arithmetic of the standard library's [SpecFloat] (round to nearest,
    ties to even), which is the arithmetic the language prescribes.
    Strings are sequences of ASCII code units.  Option values range over
    the primitive values (no objects).  Registry keys range over the
    strings an ordinary object stores as own properties, which leaves
    out [__proto__].  Time is counted in whole milliseconds and timers
    are ideal: a callback runs exactly when its delay has elapsed. *)

From Stdlib Require Import ZArith QArith Qminmax SpecFloat String Ascii List Bool Lia.
Import ListNotations.

Set Implicit Arguments.

(* ================================================================== *)
(** * The language layer *)
(* ================================================================== *)

Module JS.

(** ** Numbers *)

(** The parameters of binary64. *)
Definition prec : Z := 53%Z.
Definition emax : Z := 1024%Z.

(** A number is a double.  The type also holds pairs of a mantissa and an
    exponent that no double has; the operations never produce them. *)
Definition jsnum : Type := spec_float.

Definition NaN : jsnum := S754_nan.
Definition PInf : jsnum := S754_infinity false.
Definition NInf : jsnum := S754_infinity true.
Definition zero : jsnum := S754_zero false.

(** The double nearest to an integer, and to a fraction. *)
Definition int (z : Z) : jsnum := binary_normalize prec emax z 0%Z false.

Definition ratio (n : Z) (d : positive) : jsnum :=
  match n with
  | Z0 => zero
  | Zpos p => SFdiv prec emax (S754_finite false p 0%Z) (S754_finite false d 0%Z)
  | Zneg p => SFdiv prec emax (S754_finite true p 0%Z) (S754_finite false d 0%Z)
  end.

Definition one : jsnum := int 1.

(** The abstract relational comparison [x < y] on numbers; [None] is the
    [undefined] answer given when an operand is [NaN]. *)
Definition IsLessThan (x y : jsnum) : option bool :=
  match SFcompare x y with
  | Some Lt => Some true
  | Some _ => Some false
  | None => None
  end.

(** [x < y], [x > y], [x <= y], [x >= y] as the language defines them from
    [IsLessThan]. *)
Definition jlt (x y : jsnum) : bool :=
  match IsLessThan x y with Some true => true | _ => false end.
Definition jgt (x y : jsnum) : bool :=
  match IsLessThan y x with Some true => true | _ => false end.
Definition jle (x y : jsnum) : bool :=
  match IsLessThan y x with Some false => true | _ => false end.
Definition jge (x y : jsnum) : bool :=
  match IsLessThan x y with Some false => true | _ => false end.

(** Unary minus and the four operations, each rounded once. *)
Definition jneg (x : jsnum) : jsnum := SFopp x.
Definition jadd (x y : jsnum) : jsnum := SFadd prec emax x y.
Definition jsub (x y : jsnum) : jsnum := SFsub prec emax x y.
Definition jmul (x y : jsnum) : jsnum := SFmul prec emax x y.
Definition jdiv (x y : jsnum) : jsnum := SFdiv prec emax x y.

Definition is_NaN (x : jsnum) : bool :=
  match x with S754_nan => true | _ => false end.

Definition is_finite (x : jsnum) : bool :=
  match x with S754_zero _ | S754_finite _ _ _ => true | _ => false end.

(** The integer part of a number, towards zero; 0 for [NaN] and the
    infinities. *)
Definition truncate (x : jsnum) : Z :=
  match x with
  | S754_finite s m e =>
      let a := match e with
               | Zneg k => Z.shiftr (Zpos m) (Zpos k)
               | _ => (Zpos m * 2 ^ e)%Z
               end in
      if s then (- a)%Z else a
  | _ => 0%Z
  end.

(** The rational a finite number stands for. *)
Definition exact (x : jsnum) : Q :=
  match x with
  | S754_finite s m e =>
      let a := (inject_Z (Zpos m) * (2 # 1) ^ e)%Q in
      if s then (- a)%Q else a
  | _ => 0%Q
  end.

(** ** Reading numbers out of strings *)

Local Open Scope char_scope.

Definition is_digit (c : ascii) : bool :=
  let n := nat_of_ascii c in (48 <=? n)%nat && (n <=? 57)%nat.

Definition digit_val (c : ascii) : Z := Z.of_nat (nat_of_ascii c) - 48.

(** Value of a hexadecimal digit, if it is one. *)
Definition hex_val (c : ascii) : option Z :=
  let n := nat_of_ascii c in
  if (48 <=? n)%nat && (n <=? 57)%nat then Some (Z.of_nat n - 48)%Z
  else if (65 <=? n)%nat && (n <=? 70)%nat then Some (Z.of_nat n - 55)%Z
  else if (97 <=? n)%nat && (n <=? 102)%nat then Some (Z.of_nat n - 87)%Z
  else None.

(** [StrWhiteSpaceChar], restricted to ASCII: TAB, LF, VT, FF, CR, SP. *)
Definition is_space (c : ascii) : bool :=
  let n := nat_of_ascii c in
  ((9 <=? n)%nat && (n <=? 13)%nat) || (n =? 32)%nat.

Fixpoint drop_spaces (cs : list ascii) : list ascii :=
  match cs with
  | c :: cs' => if is_space c then drop_spaces cs' else cs
  | [] => []
  end.

Definition trim (cs : list ascii) : list ascii :=
  rev (drop_spaces (rev (drop_spaces cs))).

Fixpoint span_digits (cs : list ascii) : list ascii * list ascii :=
  match cs with
  | c :: cs' =>
      if is_digit c
      then let (ds, rest) := span_digits cs' in (c :: ds, rest)
      else ([], cs)
  | [] => ([], [])
  end.

Definition dec_value (ds : list ascii) : Z :=
  fold_left (fun acc c => (10 * acc + digit_val c)%Z) ds 0%Z.

(** Value of a radix literal's digits; [None] when a character is not a
    digit of that radix. *)
Fixpoint radix_value (radix : Z) (acc : Z) (cs : list ascii) : option Z :=
  match cs with
  | [] => Some acc
  | c :: cs' =>
      match hex_val c with
      | Some d => if (d <? radix)%Z
                  then radix_value radix (radix * acc + d)%Z cs'
                  else None
      | None => None
      end
  end.

(** [ExponentPart]: taken only when a digit follows the indicator. *)
Definition parse_exponent (cs : list ascii) : Z * list ascii :=
  match cs with
  | c :: cs' =>
      if Ascii.eqb c "e" || Ascii.eqb c "E" then
        let '(sgn, cs'') :=
          match cs' with
          | "+" :: r => (1%Z, r)
          | "-" :: r => ((-1)%Z, r)
          | _ => (1%Z, cs')
          end in
        let (ds, rest) := span_digits cs'' in
        match ds with
        | [] => (0%Z, cs)
        | _ => ((sgn * dec_value ds)%Z, rest)
        end
      else (0%Z, cs)
  | [] => (0%Z, [])
  end.

(** The double nearest to the number written [ip.fp] times ten to the
    [e]. *)
Definition decimal (ip fp : list ascii) (e : Z) : jsnum :=
  let n := dec_value (ip ++ fp) in
  match (e - Z.of_nat (length fp))%Z with
  | Zneg k => ratio n (10 ^ k)%positive
  | x => int (n * 10 ^ x)%Z
  end.

Fixpoint starts_with (p cs : list ascii) : option (list ascii) :=
  match p, cs with
  | [], _ => Some cs
  | a :: p', c :: cs' => if Ascii.eqb a c then starts_with p' cs' else None
  | _ :: _, [] => None
  end.

(** Longest prefix that is a [StrUnsignedDecimalLiteral], with the rest. *)
Definition parse_unsigned_decimal (cs : list ascii) : option (jsnum * list ascii) :=
  match starts_with (list_ascii_of_string "Infinity") cs with
  | Some rest => Some (PInf, rest)
  | None =>
      let (ip, r1) := span_digits cs in
      match ip, r1 with
      | _ :: _, "." :: r2 =>
          let (fp, r3) := span_digits r2 in
          let (e, r4) := parse_exponent r3 in
          Some (decimal ip fp e, r4)
      | _ :: _, _ =>
          let (e, r4) := parse_exponent r1 in
          Some (decimal ip [] e, r4)
      | [], "." :: r2 =>
          let (fp, r3) := span_digits r2 in
          match fp with
          | [] => None
          | _ => let (e, r4) := parse_exponent r3 in
                 Some (decimal [] fp e, r4)
          end
      | [], _ => None
      end
  end.

(** Longest prefix that is a [StrDecimalLiteral] (an optional sign first). *)
Definition parse_decimal (cs : list ascii) : option (jsnum * list ascii) :=
  match cs with
  | "+" :: r => parse_unsigned_decimal r
  | "-" :: r =>
      match parse_unsigned_decimal r with
      | Some (n, rest) => Some (jneg n, rest)
      | None => None
      end
  | _ => parse_unsigned_decimal cs
  end.

(** The global [parseFloat] on a string: leading white space is skipped,
    the longest decimal prefix is read, anything after it is ignored. *)
Definition parseFloat_string (s : string) : jsnum :=
  match parse_decimal (drop_spaces (list_ascii_of_string s)) with
  | Some (n, _) => n
  | None => NaN
  end.

Definition parse_radix_literal (cs : list ascii) : option jsnum :=
  match cs with
  | "0" :: p :: (_ :: _) as ds =>
      let radix :=
        if Ascii.eqb p "x" || Ascii.eqb p "X" then Some 16%Z
        else if Ascii.eqb p "o" || Ascii.eqb p "O" then Some 8%Z
        else if Ascii.eqb p "b" || Ascii.eqb p "B" then Some 2%Z
        else None in
      match radix with
      | Some r =>
          match radix_value r 0%Z ds with
          | Some v => Some (int v)
          | None => None
          end
      | None => None
      end
  | _ => None
  end.

(** [StringToNumber]: the whole trimmed string must be a numeric literal;
    the empty string is zero. *)
Definition StringToNumber (s : string) : jsnum :=
  match trim (list_ascii_of_string s) with
  | [] => zero
  | cs =>
      match parse_decimal cs with
      | Some (n, []) => n
      | _ =>
          match parse_radix_literal cs with
          | Some n => n
          | None => NaN
          end
      end
  end.

Local Close Scope char_scope.

(** ** Primitive values *)

Inductive jsval : Type :=
| VUndefined
| VNull
| VBool (b : bool)
| VNum (n : jsnum)
| VStr (s : string).

Definition typeof (v : jsval) : string :=
  match v with
  | VUndefined => "undefined"
  | VNull => "object"
  | VBool _ => "boolean"
  | VNum _ => "number"
  | VStr _ => "string"
  end.

Definition ToNumber (v : jsval) : jsnum :=
  match v with
  | VUndefined => NaN
  | VNull => zero
  | VBool true => one
  | VBool false => zero
  | VNum n => n
  | VStr s => StringToNumber s
  end.

(** The global [parseFloat]: the argument is converted to a string and
    that string is read.  The string of a number reads back as the number,
    a zero as the positive zero; the strings of [undefined], [null] and
    the booleans start with no digit. *)
Definition parseFloat (v : jsval) : jsnum :=
  match v with
  | VNum (S754_zero _) => zero
  | VNum n => n
  | VStr s => parseFloat_string s
  | VUndefined | VNull | VBool _ => NaN
  end.

(** The global [isNaN]. *)
Definition isNaN (v : jsval) : bool := is_NaN (ToNumber v).

(** Relational operators between a value and a number: both operands are
    converted with [ToNumber]. *)
Definition lt_num (v : jsval) (n : jsnum) : bool := jlt (ToNumber v) n.
Definition le_num (v : jsval) (n : jsnum) : bool := jle (ToNumber v) n.
Definition ge_num (v : jsval) (n : jsnum) : bool := jge (ToNumber v) n.

(** ** Ordinary objects used as maps

    An object is the list of its own properties in the order [for ... in]
    visits them: array-index keys first, by increasing value, then the
    other keys in the order they were created.  Assigning to the key
    [__proto__] does not create an own property; that key is outside
    this model, and every statement about the registry excludes it (see
    [own_key]). *)

Definition object (A : Type) : Type := list (string * A).

(** An array index is the canonical decimal string of an integer below
    [2^32 - 1]. *)
Definition array_index (k : string) : option Z :=
  match list_ascii_of_string k with
  | [] => None
  | c :: cs =>
      let (ds, rest) := span_digits (c :: cs) in
      match rest with
      | _ :: _ => None
      | [] =>
          if Ascii.eqb c "0" && negb (Nat.eqb (length cs) 0) then None
          else
            let v := dec_value ds in
            if (v <? 4294967295)%Z then Some v else None
      end
  end.

Section Objects.
Variable A : Type.

Fixpoint get (o : object A) (k : string) : option A :=
  match o with
  | [] => None
  | (k', v) :: o' => if String.eqb k' k then Some v else get o' k
  end.

Definition has (o : object A) (k : string) : bool :=
  match get o k with Some _ => true | None => false end.

Fixpoint replace (o : object A) (k : string) (v : A) : object A :=
  match o with
  | [] => []
  | (k', v') :: o' =>
      if String.eqb k' k then (k', v) :: o' else (k', v') :: replace o' k v
  end.

(** Where a new array-index key goes: before the first key that is not
    an array index or is a larger one. *)
Fixpoint insert_index (o : object A) (i : Z) (k : string) (v : A) : object A :=
  match o with
  | [] => [(k, v)]
  | (k', v') :: o' =>
      match array_index k' with
      | Some j => if (j <? i)%Z
                  then (k', v') :: insert_index o' i k v
                  else (k, v) :: o
      | None => (k, v) :: o
      end
  end.

(** [o[k] = v]. *)
Definition set (o : object A) (k : string) (v : A) : object A :=
  if has o k then replace o k v
  else match array_index k with
       | Some i => insert_index o i k v
       | None => o ++ [(k, v)]
       end.

(** [delete o[k]]. *)
Fixpoint delete (o : object A) (k : string) : object A :=
  match o with
  | [] => []
  | (k', v) :: o' =>
      if String.eqb k' k then delete o' k else (k', v) :: delete o' k
  end.

Definition keys (o : object A) : list string := map fst o.

End Objects.

(** ** Completions *)

Inductive msg_part : Type :=
| Text (s : string)
| Shown (v : jsval).

(** A message built by [+]: literal pieces and values converted to strings
    by the host. *)
Definition message : Type := list msg_part.

Inductive exn : Type :=
| Error (m : message)
| TypeError
| SyntaxError
| InvalidCharacterError.

Inductive completion (A : Type) : Type :=
| Normal (a : A)
| Throw (e : exn).

Arguments Normal {A} a.
Arguments Throw {A} e.

(** The string a value becomes under [+], for the values whose conversion
    does not depend on number formatting. *)
Definition ToString (v : jsval) : option string :=
  match v with
  | VUndefined => Some "undefined"%string
  | VNull => Some "null"%string
  | VBool true => Some "true"%string
  | VBool false => Some "false"%string
  | VStr s => Some s
  | VNum S754_nan => Some "NaN"%string
  | VNum (S754_infinity false) => Some "Infinity"%string
  | VNum (S754_infinity true) => Some "-Infinity"%string
  | VNum (S754_zero _) => Some "0"%string
  | VNum (S754_finite _ _ _) => None
  end.

Fixpoint render (m : message) : option string :=
  match m with
  | [] => Some EmptyString
  | Text s :: m' =>
      match render m' with Some r => Some (s ++ r)%string | None => None end
  | Shown v :: m' =>
      match ToString v, render m' with
      | Some s, Some r => Some (s ++ r)%string
      | _, _ => None
      end
  end.

End JS.

(* ================================================================== *)
(** * The browser as the code sees it *)
(* ================================================================== *)

Module Host.

Import JS.
Local Open Scope string_scope.

(** DOM elements are opaque handles. *)
Definition node : Type := nat.

(** The two fields of a [DOMRect] the source reads. *)
Record rect : Type := { top : jsnum; bottom : jsnum }.

(** What the document answers when asked: [document.getElementById],
    [getBoundingClientRect] and [window.innerHeight]. *)
Record page : Type := {
  getElementById : string -> option node;
  getBoundingClientRect : node -> rect;
  innerHeight : jsnum
}.

(** ** Class lists *)

(** ASCII white space of the DOM standard: TAB, LF, FF, CR, SP. *)
Definition is_dom_space (c : ascii) : bool :=
  let n := nat_of_ascii c in
  (n =? 9)%nat || (n =? 10)%nat || (n =? 12)%nat || (n =? 13)%nat || (n =? 32)%nat.

(** [DOMTokenList] validates a token before it adds or removes it. *)
Definition check_token (t : string) : completion unit :=
  match t with
  | EmptyString => Throw SyntaxError
  | _ => if existsb is_dom_space (list_ascii_of_string t)
         then Throw InvalidCharacterError
         else Normal tt
  end.

Definition token_add (cl : list string) (t : string) : list string :=
  if existsb (String.eqb t) cl then cl else cl ++ [t].

Definition token_remove (cl : list string) (t : string) : list string :=
  filter (fun t' => negb (String.eqb t t')) cl.

Inductive mutation : Type :=
| ClassAdd (el : node) (t : string)
| ClassRemove (el : node) (t : string).

(** ** Timers *)

Definition handle : Type := nat.

(** The delay [setTimeout] uses: the argument converted to a number, cut
    to its integer part and wrapped to a signed 32-bit integer, negative
    values counting as zero. *)
Definition to_int32 (z : Z) : Z :=
  let m := (z mod 4294967296)%Z in
  if (2147483648 <=? m)%Z then (m - 4294967296)%Z else m.

Definition timeout_ms (v : jsval) : Z :=
  Z.max 0 (to_int32 (truncate (ToNumber v))).

End Host.

(* ================================================================== *)
(** * The source: [activeView] *)
(* ================================================================== *)

Module ActiveView.

Import JS Host.
Local Open Scope string_scope.

(** ** Options *)

(** The [OPTS] argument: each property is present with a value or absent. *)
Record user_options : Type := {
  u_className : option jsval;
  u_updateDelay : option jsval;
  u_method : option jsval;
  u_advance : option jsval;
  u_largeEnough : option jsval
}.

Record options : Type := {
  className : jsval;
  updateDelay : jsval;
  method : jsval;
  advance : jsval;
  largeEnough : jsval
}.

Definition no_options : user_options :=
  {| u_className := None; u_updateDelay := None; u_method := None;
     u_advance := None; u_largeEnough := None |}.

Definition or_default (o : option jsval) (d : jsval) : jsval :=
  match o with Some v => v | None => d end.

(** [Object.assign({ className: ..., ... }, OPTS)]: a property of [OPTS]
    overrides the default, also when its value is [undefined]. *)
Definition assign_defaults (u : user_options) : options :=
  {| className := or_default (u_className u) (VStr "active-view-link");
     updateDelay := or_default (u_updateDelay u) (VNum (int 50));
     method := or_default (u_method u) (VStr "partial");
     advance := or_default (u_advance u) (VNum (ratio 2 10));
     largeEnough := or_default (u_largeEnough u) (VNum (ratio 5 10)) |}.

Inductive policy : Type :=
| partiallyVisible_
| screenspace_
| completelyVisible_.

Definition DETECTION_METHODS : object policy :=
  [("partial", partiallyVisible_);
   ("screenspace", screenspace_);
   ("complete", completelyVisible_)].

(** [DETECTION_METHODS[OPTS.method]] among the own properties; [None] is
    [undefined].  The key of a primitive that is not a string is never one
    of the three names, and a name inherited from [Object.prototype] is
    refused by [validateOpts] before [UPDATE_METHOD] is ever called. *)
Definition lookup_method (v : jsval) : option policy :=
  match v with
  | VStr s => get DETECTION_METHODS s
  | _ => None
  end.

(** [DETECTION_METHODS.hasOwnProperty(OPTS.method)]. *)
Definition hasOwnProperty_method (v : jsval) : bool :=
  match lookup_method v with Some _ => true | None => false end.

(** ** validateOpts *)

Definition PREFIX : string := "[v-active-view] Invalid option for ".
Definition INFIX : string := " Passed option: ".
Definition SUFFIX : string := ".".

Definition isString (val : jsval) : bool := String.eqb (typeof val) "string".
Definition isNumber (val : jsval) : bool := negb (isNaN (VNum (parseFloat val))).
Definition isBetween (v : jsval) (a b : jsnum) : bool :=
  if ge_num v a then (if le_num v b then true else false) else false.

Definition quote : string := String (ascii_of_nat 34) EmptyString.

(** The branch of the [if ... else if] chain that is taken: the value kept
    in [invalidOpt] and the text kept in [err]; [None] when no branch is. *)
Definition first_invalid (OPTS : options) : option (jsval * string) :=
  if negb (isString (className OPTS)) then
    Some (className OPTS,
          quote ++ "className" ++ quote ++ ". Needs to be a string.")
  else if negb (isNumber (updateDelay OPTS)) || lt_num (updateDelay OPTS) zero then
    Some (updateDelay OPTS,
          quote ++ "updateDelay" ++ quote ++ ". Needs to be a number " ++
          "greater than or equal to 0.")
  else if negb (isString (method OPTS)) || negb (hasOwnProperty_method (method OPTS)) then
    Some (method OPTS,
          quote ++ "className" ++ quote ++ ". Needs to be a string of value " ++
          quote ++ "partial" ++ quote ++ ", " ++ quote ++ "screenspace" ++ quote ++
          " or " ++ quote ++ "complete" ++ quote ++ ".")
  else if negb (isNumber (advance OPTS)) || negb (isBetween (advance OPTS) zero one) then
    Some (advance OPTS,
          quote ++ "advance" ++ quote ++ ". Needs to be a number between 0 and 1.")
  else if negb (isNumber (largeEnough OPTS)) ||
          negb (isBetween (largeEnough OPTS) zero one) then
    Some (largeEnough OPTS,
          quote ++ "largeEnough" ++ quote ++ ". Needs to be a number between 0 and 1.")
  else None.

Definition validateOpts (OPTS : options) : completion unit :=
  match first_invalid OPTS with
  | Some (invalidOpt, err) =>
      Throw (Error [Text PREFIX; Text err; Text INFIX; Shown invalidOpt; Text SUFFIX])
  | None => Normal tt
  end.

(** ** The registry and the closure's variables *)

(** A value of [elements]: [{ link: el, content: document.getElementById(id) }];
    [content] is [None] when the lookup returned [null]. *)
Record entry : Type := { link : node; content : option node }.

(** The directive [activeView(OPTS)] returns, once [validateOpts] has
    passed: the merged options and the function read from
    [DETECTION_METHODS]. *)
Record directive : Type := {
  OPTS : options;
  UPDATE_METHOD : option policy
}.

(** The variables of the closure, followed by the part of the browser
    they act on.  [runs] records, for each run of the timer callback, the
    time and the completion of [UPDATE_METHOD]; [mutations] records the
    class-list calls carried out, oldest first. *)
Record state : Type := {
  isBound : bool;
  elements : object entry;
  oldActive : option node;
  scrollTimeout : option handle;
  now : Z;
  listening : bool;
  pending : list (handle * Z);
  nextHandle : handle;
  classList : node -> list string;
  mutations : list mutation;
  runs : list (Z * completion (option node))
}.

(** The string [classList.add] and [classList.remove] receive.  Validated
    options have a string here. *)
Definition class_token (o : options) : string :=
  match className o with
  | VStr s => s
  | _ => EmptyString
  end.

(** ** The three detection methods *)

Section Detection.
Variable O : options.
Variable pg : page.

(** [getCommonValues]: reading [el.content.getBoundingClientRect] off a
    [null] content is a [TypeError]. *)
Definition getCommonValues (el : entry) : completion rect :=
  match content el with
  | Some c => Normal (getBoundingClientRect pg c)
  | None => Throw TypeError
  end.

Fixpoint partiallyVisible_loop (advance' : jsnum) (wHeight : jsnum)
         (els : object entry) : completion (option node) :=
  match els with
  | [] => Normal None
  | (_, el) :: rest =>
      match getCommonValues el with
      | Throw e => Throw e
      | Normal vals =>
          let isVisible := jlt (top vals) wHeight &&
                           jge (bottom vals) advance' in
          if isVisible then Normal (Some (link el))
          else partiallyVisible_loop advance' wHeight rest
      end
  end.

Definition partiallyVisible (els : object entry) (wHeight : jsnum)
  : completion (option node) :=
  let advance' := jmul (ToNumber (advance O)) wHeight in
  partiallyVisible_loop advance' wHeight els.

Fixpoint screenspace_loop (wHeight : jsnum) (els : object entry)
         (biggestShare : jsnum) (newActiveLink : option node)
  : completion (option node) :=
  match els with
  | [] => Normal newActiveLink
  | (_, el) :: rest =>
      match getCommonValues el with
      | Throw e => Throw e
      | Normal vals =>
          let top' := top vals in
          let bottom' := bottom vals in
          let height := jsub bottom' top' in
          if jgt top' wHeight || jlt bottom' zero then
            screenspace_loop wHeight rest biggestShare newActiveLink
          else
            let topReduction := if jlt top' zero then jneg top' else zero in
            let bottomReduction :=
              if jgt bottom' wHeight then jsub bottom' wHeight else zero in
            let share :=
              jdiv (jsub (jsub height topReduction) bottomReduction) wHeight in
            if jgt share biggestShare then
              if jge share (ToNumber (largeEnough O))
              then Normal (Some (link el))
              else screenspace_loop wHeight rest share (Some (link el))
            else screenspace_loop wHeight rest biggestShare newActiveLink
      end
  end.

Definition screenspace (els : object entry) (wHeight : jsnum)
  : completion (option node) :=
  screenspace_loop wHeight els zero None.

Fixpoint completelyVisible (els : object entry) (wHeight : jsnum)
  : completion (option node) :=
  match els with
  | [] => Normal None
  | (_, el) :: rest =>
      match getCommonValues el with
      | Throw e => Throw e
      | Normal vals =>
          let isVisible := jge (top vals) zero &&
                           jle (bottom vals) wHeight in
          if isVisible then Normal (Some (link el))
          else completelyVisible rest wHeight
      end
  end.

Definition apply_policy (p : policy) (els : object entry) (wHeight : jsnum)
  : completion (option node) :=
  match p with
  | partiallyVisible_ => partiallyVisible els wHeight
  | screenspace_ => screenspace els wHeight
  | completelyVisible_ => completelyVisible els wHeight
  end.

End Detection.

(** [hasBoundElements]. *)
Definition hasBoundElements (els : object entry) : bool :=
  match els with
  | _ :: _ => true
  | [] => false
  end.

(** ** Acting on the browser *)

Definition set_classes (st : state) (el : node) (cl : list string) (m : mutation)
  : state :=
  {| isBound := isBound st; elements := elements st; oldActive := oldActive st;
     scrollTimeout := scrollTimeout st; now := now st; listening := listening st;
     pending := pending st; nextHandle := nextHandle st;
     classList := fun n => if Nat.eqb n el then cl else classList st n;
     mutations := mutations st ++ [m]; runs := runs st |}.

(** [el.classList.remove(t)]. *)
Definition classList_remove (st : state) (el : node) (t : string) : completion state :=
  match check_token t with
  | Throw e => Throw e
  | Normal _ =>
      Normal (set_classes st el (token_remove (classList st el) t) (ClassRemove el t))
  end.

(** [el.classList.add(t)]. *)
Definition classList_add (st : state) (el : node) (t : string) : completion state :=
  match check_token t with
  | Throw e => Throw e
  | Normal _ =>
      Normal (set_classes st el (token_add (classList st el) t) (ClassAdd el t))
  end.

Definition set_oldActive (st : state) (a : option node) : state :=
  {| isBound := isBound st; elements := elements st; oldActive := a;
     scrollTimeout := scrollTimeout st; now := now st; listening := listening st;
     pending := pending st; nextHandle := nextHandle st;
     classList := classList st; mutations := mutations st; runs := runs st |}.

Definition record_run (st : state) (r : completion (option node)) : state :=
  {| isBound := isBound st; elements := elements st; oldActive := oldActive st;
     scrollTimeout := scrollTimeout st; now := now st; listening := listening st;
     pending := pending st; nextHandle := nextHandle st;
     classList := classList st; mutations := mutations st;
     runs := runs st ++ [(now st, r)] |}.

(** [window.clearTimeout(h)]: an unknown or [undefined] handle is ignored. *)
Definition clearTimeout (st : state) (h : option handle) : state :=
  match h with
  | None => st
  | Some h' =>
      {| isBound := isBound st; elements := elements st; oldActive := oldActive st;
         scrollTimeout := scrollTimeout st; now := now st; listening := listening st;
         pending := filter (fun p => negb (Nat.eqb (fst p) h')) (pending st);
         nextHandle := nextHandle st; classList := classList st;
         mutations := mutations st; runs := runs st |}
  end.

(** [scrollTimeout = window.setTimeout(callback, delay)]. *)
Definition setTimeout (st : state) (delay : jsval) : state :=
  {| isBound := isBound st; elements := elements st; oldActive := oldActive st;
     scrollTimeout := Some (nextHandle st); now := now st; listening := listening st;
     pending := pending st ++ [(nextHandle st, (now st + timeout_ms delay)%Z)];
     nextHandle := S (nextHandle st); classList := classList st;
     mutations := mutations st; runs := runs st |}.

Definition set_registry (st : state) (b l : bool) (els : object entry) : state :=
  {| isBound := b; elements := els; oldActive := oldActive st;
     scrollTimeout := scrollTimeout st; now := now st; listening := l;
     pending := pending st; nextHandle := nextHandle st;
     classList := classList st; mutations := mutations st; runs := runs st |}.

Definition set_clock (st : state) (t : Z) (q : list (handle * Z)) : state :=
  {| isBound := isBound st; elements := elements st; oldActive := oldActive st;
     scrollTimeout := scrollTimeout st; now := t; listening := listening st;
     pending := q; nextHandle := nextHandle st;
     classList := classList st; mutations := mutations st; runs := runs st |}.

(** ** updateActive and the directive's hooks *)

Section Directive.
Variable D : directive.

(** [UPDATE_METHOD(window.innerHeight)]; calling [undefined] is a
    [TypeError]. *)
Definition evaluate (pg : page) (els : object entry) : completion (option node) :=
  match UPDATE_METHOD D with
  | Some p => apply_policy (OPTS D) pg p els (innerHeight pg)
  | None => Throw TypeError
  end.

(** The function given to [setTimeout]: an exception ends it where it
    is raised. *)
Definition callback (pg : page) (st : state) : state :=
  let r := evaluate pg (elements st) in
  let st := record_run st r in
  match r with
  | Throw _ => st
  | Normal None => st
  | Normal (Some newActiveLink) =>
      let removed :=
        match oldActive st with
        | Some old => classList_remove st old (class_token (OPTS D))
        | None => Normal st
        end in
      match removed with
      | Throw _ => st
      | Normal st1 =>
          match classList_add st1 newActiveLink (class_token (OPTS D)) with
          | Throw _ => st1
          | Normal st2 => set_oldActive st2 (Some newActiveLink)
          end
      end
  end.

Definition updateActive (st : state) : state :=
  setTimeout (clearTimeout st (scrollTimeout st)) (updateDelay (OPTS D)).

(** The [inserted] hook, with [binding.value = contentId]. *)
Definition inserted (pg : page) (el : node) (contentId : string) (st : state) : state :=
  let st1 :=
    if negb (isBound st)
    then updateActive (set_registry st true true (elements st))
    else st in
  set_registry st1 (isBound st1) (listening st1)
    (set (elements st1) contentId
         {| link := el; content := getElementById pg contentId |}).

(** The [unbind] hook, with [binding.value = contentId]. *)
Definition unbind (contentId : string) (st : state) : state :=
  let els := delete (elements st) contentId in
  if negb (hasBoundElements els)
  then set_registry st false false els
  else set_registry st (isBound st) (listening st) els.

(** ** What the browser does to the directive *)

(** The document dispatches a scroll event to its listeners. *)
Definition scroll (st : state) : state :=
  if listening st then updateActive st else st.

(** Timers that are due run in the order they were set, each at its own
    time. *)
Fixpoint fire (pg : page) (due : list (handle * Z)) (st : state) : state :=
  match due with
  | [] => st
  | (_, t) :: due' => fire pg due' (callback pg (set_clock st t (pending st)))
  end.

(** Time passes until [t]. *)
Definition elapse (pg : page) (t : Z) (st : state) : state :=
  if (t <? now st)%Z then st
  else
    let due := filter (fun p => (snd p <=? t)%Z) (pending st) in
    let later := filter (fun p => negb (snd p <=? t)%Z) (pending st) in
    let st' := fire pg due (set_clock st (now st) later) in
    set_clock st' t (pending st').

Inductive event : Type :=
| Inserted (el : node) (contentId : string)
| Unbind (el : node) (contentId : string)
| Scroll
| Elapse (t : Z).

Definition step (pg : page) (ev : event) (st : state) : state :=
  match ev with
  | Inserted el contentId => inserted pg el contentId st
  | Unbind _ contentId => unbind contentId st
  | Scroll => scroll st
  | Elapse t => elapse pg t st
  end.

(** A key an ordinary object stores as an own property. *)
Definition own_key (k : string) : Prop := k <> "__proto__".

Definition well_formed (ev : event) : Prop :=
  match ev with
  | Inserted _ contentId => own_key contentId
  | _ => True
  end.

(** The closure as [activeView] leaves it, in a browser that holds no
    listener and no timer of it yet. *)
Definition fresh (st : state) : Prop :=
  isBound st = false /\ elements st = [] /\ oldActive st = None /\
  scrollTimeout st = None /\ listening st = false /\ pending st = [] /\
  runs st = [].

Inductive reachable : state -> Prop :=
| reach_fresh : forall st, fresh st -> reachable st
| reach_step : forall pg ev st,
    reachable st -> well_formed ev -> reachable (step pg ev st).

End Directive.

(** [activeView(OPTS)]: the directive, or the error of [validateOpts]. *)
Definition activeView (u : user_options) : completion directive :=
  let O := assign_defaults u in
  let m := lookup_method (method O) in
  match validateOpts O with
  | Throw e => Throw e
  | Normal _ => Normal {| OPTS := O; UPDATE_METHOD := m |}
  end.

(** A closure just created at time 0 in a page where no element has a
    class. *)
Definition boot : state :=
  {| isBound := false; elements := []; oldActive := None; scrollTimeout := None;
     now := 0%Z; listening := false; pending := []; nextHandle := 1%nat;
     classList := fun _ => []; mutations := []; runs := [] |}.

End ActiveView.

(* ================================================================== *)
(** * Vocabulary of the statements *)
(* ================================================================== *)

Module Props.

Import JS Host ActiveView.

(** The geometry of a registered pair, when its content was found. *)
Definition geometry (pg : page) (el : entry) : option rect :=
  match content el with
  | Some c => Some (getBoundingClientRect pg c)
  | None => None
  end.

Definition resolved (pg : page) (ke : string * entry) : Prop :=
  exists r, geometry pg (snd ke) = Some r.

(** A pair that was measured and did not satisfy [P]. *)
Definition rejected (pg : page) (P : rect -> Prop) (ke : string * entry) : Prop :=
  exists r, geometry pg (snd ke) = Some r /\ ~ P r.

(** [l] is the link of the first pair of [els] whose geometry satisfies
    [P]. *)
Definition first_match (pg : page) (P : rect -> Prop) (els : object entry)
           (l : node) : Prop :=
  exists pre k el post r,
    els = pre ++ (k, el) :: post /\
    Forall (rejected pg P) pre /\
    geometry pg el = Some r /\ P r /\ link el = l.

(** A loop that returns the link of the first pair passing a test. *)
Fixpoint scan (pg : page) (t : rect -> bool) (els : object entry)
  : completion (option node) :=
  match els with
  | [] => Normal None
  | (_, el) :: rest =>
      match getCommonValues pg el with
      | Throw e => Throw e
      | Normal vals => if t vals then Normal (Some (link el)) else scan pg t rest
      end
  end.

(** The condition of the partial policy: [top < wHeight] and
    [bottom >= adv * wHeight], the product rounded as the language
    rounds it. *)
Definition partial_ok (wHeight adv : jsnum) (r : rect) : Prop :=
  jlt (top r) wHeight = true /\ jge (bottom r) (jmul adv wHeight) = true.

(** The condition of the complete policy: [top >= 0] and
    [bottom <= wHeight]. *)
Definition complete_ok (wHeight : jsnum) (r : rect) : Prop :=
  jge (top r) zero = true /\ jle (bottom r) wHeight = true.

(** The two conditions as tests. *)
Definition partial_test (w a : jsnum) (r : rect) : bool :=
  jlt (top r) w && jge (bottom r) (jmul a w).

Definition complete_test (w : jsnum) (r : rect) : bool :=
  jge (top r) zero && jle (bottom r) w.

(** Pairs the screenspace policy does not skip. *)
Definition considered (wHeight : jsnum) (r : rect) : Prop :=
  ~ (jgt (top r) wHeight = true \/ jlt (bottom r) zero = true).

(** The share of the viewport a pair takes, with the operations in the
    order the source performs them, each rounded:
    [(bottom - top - topReduction - bottomReduction) / wHeight]. *)
Definition share (wHeight : jsnum) (r : rect) : jsnum :=
  let height := jsub (bottom r) (top r) in
  let topReduction := if jlt (top r) zero then jneg (top r) else zero in
  let bottomReduction :=
    if jgt (bottom r) wHeight then jsub (bottom r) wHeight else zero in
  jdiv (jsub (jsub height topReduction) bottomReduction) wHeight.

(** The same share on exact rationals, as the specification writes it. *)
Definition visibleShare (wHeight : Q) (t b : Q) : Q :=
  (((b - t) - Qmax 0 (- t) - Qmax 0 (b - wHeight)) / wHeight)%Q.

(** [x] is the share of the pair [ke], which is measured and not skipped. *)
Definition share_in (pg : page) (wHeight : jsnum) (ke : string * entry)
           (x : jsnum) : Prop :=
  exists r, geometry pg (snd ke) = Some r /\ considered wHeight r /\
            x = share wHeight r.

(** ** The order of numbers

    Numbers other than [NaN] are ordered like their ranks: the sign class
    first, then the exponent, then the mantissa.  Both zeros have the same
    rank. *)
Definition rank (x : jsnum) : Z * Z * Z :=
  match x with
  | S754_nan => (0, 0, 0)%Z
  | S754_infinity true => (-2, 0, 0)%Z
  | S754_infinity false => (2, 0, 0)%Z
  | S754_zero _ => (0, 0, 0)%Z
  | S754_finite true m e => (-1, - e, - Zpos m)%Z
  | S754_finite false m e => (1, e, Zpos m)%Z
  end.

Definition below (a b : Z * Z * Z) : Prop :=
  (fst (fst a) < fst (fst b) \/
   (fst (fst a) = fst (fst b) /\
    (snd (fst a) < snd (fst b) \/
     (snd (fst a) = snd (fst b) /\ snd a < snd b))))%Z.

(** ** Options *)

Local Open Scope string_scope.

(** The constraints of the configuration table, option by option. *)
Definition table_className (v : jsval) : Prop :=
  exists s, v = VStr s /\ s <> EmptyString.

Definition table_updateDelay (v : jsval) : Prop :=
  exists n, v = VNum n /\ jge n zero = true.

Definition table_method (v : jsval) : Prop :=
  v = VStr "partial" \/ v = VStr "screenspace" \/ v = VStr "complete".

Definition table_unit (v : jsval) : Prop :=
  exists n, v = VNum n /\ jge n zero = true /\ jle n one = true.

Definition table_ok (O : options) : Prop :=
  table_className (className O) /\
  table_updateDelay (updateDelay O) /\
  table_method (method O) /\
  table_unit (advance O) /\
  table_unit (largeEnough O).

(** What the source requires of each option. *)
Definition reads_as_number (v : jsval) : Prop := parseFloat v <> NaN.

Definition accepted (O : options) : Prop :=
  typeof (className O) = "string" /\
  (reads_as_number (updateDelay O) /\ lt_num (updateDelay O) zero = false) /\
  table_method (method O) /\
  (reads_as_number (advance O) /\
   ge_num (advance O) zero = true /\ le_num (advance O) one = true) /\
  (reads_as_number (largeEnough O) /\
   ge_num (largeEnough O) zero = true /\ le_num (largeEnough O) one = true).

(** The numeric options are numbers, as the table types them. *)
Definition numeric_options_typed (O : options) : Prop :=
  (exists n, updateDelay O = VNum n) /\
  (exists n, advance O = VNum n) /\
  (exists n, largeEnough O = VNum n).

Definition throws (u : user_options) : Prop :=
  exists e, activeView u = Throw e.

(** The name occurs in a literal piece of the message. *)
Definition mentions (name : string) (m : message) : bool :=
  existsb (fun p => match p with
                    | Text s => match index 0 name s with
                                | Some _ => true
                                | None => false
                                end
                    | Shown _ => false
                    end) m.

(** The value is the one the message shows. *)
Definition shows (v : jsval) (m : message) : Prop := In (Shown v) m.

(** Notifications [t :: ts] each arrive less than [d] after the one
    before. *)
Fixpoint spaced (d : Z) (t : Z) (ts : list Z) : Prop :=
  match ts with
  | [] => True
  | t' :: rest => (t <= t' /\ t' - t < d)%Z /\ spaced d t' rest
  end.

(** A scroll notification that arrives at time [t]. *)
Definition notify (D : directive) (pg : page) (st : state) (t : Z) : state :=
  scroll D (elapse D pg t st).

(** The flag, the listener and the registry agree. *)
Definition subscribed_iff_bound (st : state) : Prop :=
  listening st = isBound st /\ isBound st = hasBoundElements (elements st).

(** Every pending timer is the one [scrollTimeout] names, and there is at
    most one. *)
Definition one_timer (st : state) : Prop :=
  pending st = [] \/
  exists h due, pending st = [(h, due)] /\ scrollTimeout st = Some h.

Definition only_className (v : jsval) : user_options :=
  {| u_className := Some v; u_updateDelay := None; u_method := None;
     u_advance := None; u_largeEnough := None |}.

Definition only_updateDelay (v : jsval) : user_options :=
  {| u_className := None; u_updateDelay := Some v; u_method := None;
     u_advance := None; u_largeEnough := None |}.

Definition only_method (v : jsval) : user_options :=
  {| u_className := None; u_updateDelay := None; u_method := Some v;
     u_advance := None; u_largeEnough := None |}.

(** The state in the middle of a burst: the last notification came at
    [t], the only pending callback is due [d] later, and no evaluation
    has run since the burst began. *)
Definition armed (d : Z) (R : list (Z * completion (option node)))
           (E : object entry) (t : Z) (s : state) : Prop :=
  listening s = true /\ now s = t /\ runs s = R /\ elements s = E /\
  exists h, pending s = [(h, (t + d)%Z)] /\ scrollTimeout s = Some h.

(** ** Sample directives and pages *)

(** [activeView()] and [activeView({ method: 'complete' })]. *)
Definition default_directive : directive :=
  {| OPTS := assign_defaults no_options;
     UPDATE_METHOD := Some partiallyVisible_ |}.

Definition complete_directive : directive :=
  {| OPTS := assign_defaults (only_method (VStr "complete"));
     UPDATE_METHOD := Some completelyVisible_ |}.

(** A page 1000 high whose element [a] spans 0..500. *)
Definition one_section : page :=
  {| getElementById := fun id => if String.eqb id "a" then Some 10%nat else None;
     getBoundingClientRect := fun _ => {| top := zero; bottom := int 500 |};
     innerHeight := int 1000 |}.

(** A page 800 high whose element [b] spans 10..300 and whose element [1]
    spans 400..700: both lie wholly inside the viewport. *)
Definition two_sections : page :=
  {| getElementById := fun id =>
       if String.eqb id "b" then Some 20%nat
       else if String.eqb id "1" then Some 21%nat
       else None;
     getBoundingClientRect := fun c =>
       if Nat.eqb c 20 then {| top := int 10; bottom := int 300 |}
       else {| top := int 400; bottom := int 700 |};
     innerHeight := int 800 |}.

(** The partial scenario of the specification: content 30 spans
    1200..1800 and is registered under [b] with link 2, content 31 spans
    300..900 and is registered under [a] with link 1. *)
Definition partial_scenario : page :=
  {| getElementById := fun id =>
       if String.eqb id "b" then Some 30%nat
       else if String.eqb id "a" then Some 31%nat
       else None;
     getBoundingClientRect := fun c =>
       if Nat.eqb c 30 then {| top := int 1200; bottom := int 1800 |}
       else {| top := int 300; bottom := int 900 |};
     innerHeight := int 1000 |}.

Definition partial_registry : object entry :=
  [("b", {| link := 2%nat; content := Some 30%nat |});
   ("a", {| link := 1%nat; content := Some 31%nat |})].

(** The screenspace scenario of the specification, followed by a pair
    whose content was never found: content 40 spans -100..400, content 41
    spans 0..1000. *)
Definition screenspace_scenario : page :=
  {| getElementById := fun id =>
       if String.eqb id "a" then Some 40%nat
       else if String.eqb id "b" then Some 41%nat
       else None;
     getBoundingClientRect := fun c =>
       if Nat.eqb c 40 then {| top := int (-100); bottom := int 400 |}
       else {| top := zero; bottom := int 1000 |};
     innerHeight := int 1000 |}.

Definition pair_A : string * entry :=
  ("a", {| link := 1%nat; content := Some 40%nat |}).
Definition pair_B : string * entry :=
  ("b", {| link := 2%nat; content := Some 41%nat |}).
Definition pair_C : string * entry :=
  ("c", {| link := 3%nat; content := None |}).

(** The page of [one_section] once [a] has scrolled far above the
    viewport. *)
Definition scrolled_away : page :=
  {| getElementById := fun id => if String.eqb id "a" then Some 10%nat else None;
     getBoundingClientRect := fun _ => {| top := int (-2000); bottom := int (-1500) |};
     innerHeight := int 1000 |}.

(** The first bind on a page, then 50 ms. *)
Definition bound_once : state :=
  inserted default_directive one_section 1%nat "a" boot.

Definition evaluated_once : state :=
  elapse default_directive one_section 50%Z bound_once.

(** A scroll notification at 50 ms, then time until 100 ms: nothing on
    the page or in the registry has changed. *)
Definition evaluated_twice : state :=
  elapse default_directive one_section 100%Z
         (scroll default_directive evaluated_once).

(** Two binds, [b] first and [1] second, then 50 ms. *)
Definition b_then_1 : state :=
  elapse complete_directive two_sections 50%Z
         (inserted complete_directive two_sections 2%nat "1"
                   (inserted complete_directive two_sections 1%nat "b" boot)).

(** ** Runs, class marks and enumeration order *)

(** The directive driven by a sequence of events, each on the page of its
    moment. *)
Definition run (D : directive) (tr : list (page * event)) (st : state) : state :=
  fold_left (fun s pe => step D (fst pe) (snd pe) s) tr st.

(** The links that carry the class are exactly the active one. *)
Definition exclusive (tok : string) (st : state) : Prop :=
  forall n, In tok (classList st n) <-> oldActive st = Some n.

(** The pair [inserted] stores for a link and an identifier. *)
Definition entry_of (pg : page) (b : node * string) : string * entry :=
  (snd b, {| link := fst b; content := getElementById pg (snd b) |}).

(** Several binds in a row. *)
Definition bind_all (D : directive) (pg : page) (bs : list (node * string))
           (st : state) : state :=
  fold_left (fun s b => inserted D pg (fst b) (snd b) s) bs st.

(** Keys as [for ... in] yields them: array-index keys first, their values
    never decreasing from [lo] on, and after the first other key only
    other keys. *)
Fixpoint enumerated (lo : Z) (ks : list string) : Prop :=
  match ks with
  | [] => True
  | k :: rest =>
      match array_index k with
      | Some i => (lo <= i)%Z /\ enumerated i rest
      | None => Forall (fun k' => array_index k' = None) rest
      end
  end.

(** The scan reaches a pair whose content was not found before any pair
    satisfies [P]. *)
Definition unresolved_first (pg : page) (P : rect -> Prop) (els : object entry)
  : Prop :=
  exists pre k el post,
    els = (pre ++ (k, el) :: post)%list /\
    Forall (rejected pg P) pre /\ content el = None.

(** [activeView({ className: '' })]. *)
Definition empty_class_directive : directive :=
  {| OPTS := assign_defaults (only_className (VStr EmptyString));
     UPDATE_METHOD := Some partiallyVisible_ |}.

(** A page 1000 high with elements [a] (content 10, spanning 0..500) and
    [c] (content 11, spanning 600..900). *)
Definition two_visible : page :=
  {| getElementById := fun id =>
       if String.eqb id "a" then Some 10%nat
       else if String.eqb id "c" then Some 11%nat
       else None;
     getBoundingClientRect := fun c =>
       if Nat.eqb c 10 then {| top := zero; bottom := int 500 |}
       else {| top := int 600; bottom := int 900 |};
     innerHeight := int 1000 |}.

(** The same page scrolled until [a] has left the viewport: [a] spans
    -900..-400 and [c] spans 100..400. *)
Definition scrolled_to_c : page :=
  {| getElementById := fun id =>
       if String.eqb id "a" then Some 10%nat
       else if String.eqb id "c" then Some 11%nat
       else None;
     getBoundingClientRect := fun c =>
       if Nat.eqb c 10 then {| top := int (-900); bottom := int (-400) |}
       else {| top := int 100; bottom := int 400 |};
     innerHeight := int 1000 |}.

(** Links 1 and 2 bound to [a] and [c], evaluated once: link 1 is active. *)
Definition two_bound : state :=
  elapse default_directive two_visible 50%Z
         (inserted default_directive two_visible 2%nat "c"
                   (inserted default_directive two_visible 1%nat "a" boot)).

(** What [validateOpts] requires of [updateDelay], and of [advance] and
    [largeEnough]. *)
Definition delay_accepted (v : jsval) : Prop :=
  reads_as_number v /\ lt_num v zero = false.

Definition unit_accepted (v : jsval) : Prop :=
  reads_as_number v /\ ge_num v zero = true /\ le_num v one = true.

(** The value [v] belongs to the first option of [O] that fails, in the
    order of the checks: all the options before it pass. *)
Definition first_failure (O : options) (v : jsval) : Prop :=
  (v = className O /\ typeof (className O) <> "string") \/
  (v = updateDelay O /\
   typeof (className O) = "string" /\
   ~ delay_accepted (updateDelay O)) \/
  (v = method O /\
   typeof (className O) = "string" /\
   delay_accepted (updateDelay O) /\
   ~ table_method (method O)) \/
  (v = advance O /\
   typeof (className O) = "string" /\
   delay_accepted (updateDelay O) /\
   table_method (method O) /\
   ~ unit_accepted (advance O)) \/
  (v = largeEnough O /\
   typeof (className O) = "string" /\
   delay_accepted (updateDelay O) /\
   table_method (method O) /\
   unit_accepted (advance O) /\
   ~ unit_accepted (largeEnough O)).

(** A finite number between 0 and 1. *)
Definition unit_number (n : jsnum) : Prop :=
  is_finite n = true /\ jge n zero = true /\ jle n one = true.

(** [undefined], [null] and the booleans. *)
Definition not_text_nor_number (v : jsval) : Prop :=
  v = VUndefined \/ v = VNull \/ exists b, v = VBool b.

(** Some option of [OPTS] is present with the value [v]. *)
Definition passes (u : user_options) (v : jsval) : Prop :=
  u_className u = Some v \/ u_updateDelay u = Some v \/ u_method u = Some v \/
  u_advance u = Some v \/ u_largeEnough u = Some v.

(** Links 5, 6 and 7 bound to [intro], [usage] and [api], in that order. *)
Definition three_binds : list (node * string) :=
  [(5%nat, "intro"); (6%nat, "usage"); (7%nat, "api")].

(** [l] is the link of a pair of the registry. *)
Definition registered (els : object entry) (l : node) : Prop :=
  exists k el, In (k, el) els /\ link el = l.

(** A registry whose first pair is below the viewport and whose second
    pair has no content, on the page of the partial scenario. *)
Definition registry_with_gap : object entry :=
  [("b", {| link := 2%nat; content := Some 30%nat |});
   ("x", {| link := 9%nat; content := None |});
   ("a", {| link := 1%nat; content := Some 31%nat |})].

(** The only pair unbound after the second evaluation, while the timer of
    a later scroll notification is still pending. *)
Definition scrolled_again : state := scroll default_directive evaluated_once.

(** ** Rounding, a zero threshold and fractional delays *)

(** [activeView({ method: 'screenspace' })]. *)
Definition screenspace_directive : directive :=
  {| OPTS := assign_defaults (only_method (VStr "screenspace"));
     UPDATE_METHOD := Some screenspace_ |}.

(** A page 738 high whose element [a] spans 0..147.6. *)
Definition rounding_page : page :=
  {| getElementById := fun id => if String.eqb id "a" then Some 50%nat else None;
     getBoundingClientRect := fun _ => {| top := zero; bottom := ratio 1476 10 |};
     innerHeight := int 738 |}.

(** [activeView({ method: 'screenspace', largeEnough: 0 })]. *)
Definition zero_threshold : user_options :=
  {| u_className := None; u_updateDelay := None;
     u_method := Some (VStr "screenspace"); u_advance := None;
     u_largeEnough := Some (VNum zero) |}.

Definition zero_threshold_directive : directive :=
  {| OPTS := assign_defaults zero_threshold;
     UPDATE_METHOD := Some screenspace_ |}.

(** A page 1000 high whose element [a] spans 1000..1500, just below the
    viewport, and whose element [b] spans 0..500. *)
Definition touching_page : page :=
  {| getElementById := fun id =>
       if String.eqb id "a" then Some 60%nat
       else if String.eqb id "b" then Some 61%nat
       else None;
     getBoundingClientRect := fun c =>
       if Nat.eqb c 60 then {| top := int 1000; bottom := int 1500 |}
       else {| top := zero; bottom := int 500 |};
     innerHeight := int 1000 |}.

(** A page 1000 high whose element [a] spans -100.1..200.2 and whose
    element [b] spans 200.2..400.4. *)
Definition tie_page : page :=
  {| getElementById := fun id =>
       if String.eqb id "a" then Some 62%nat
       else if String.eqb id "b" then Some 63%nat
       else None;
     getBoundingClientRect := fun c =>
       if Nat.eqb c 62 then {| top := ratio (-1001) 10; bottom := ratio 2002 10 |}
       else {| top := ratio 2002 10; bottom := ratio 4004 10 |};
     innerHeight := int 1000 |}.

(** Links 1 and 2 bound to [a] and [b], in that order. *)
Definition a_then_b : list (node * string) := [(1%nat, "a"); (2%nat, "b")].

(** The exact share of the pair at [c] on a page, by the formula of the
    specification on the numbers the page reports. *)
Definition exact_share (pg : page) (c : node) : Q :=
  visibleShare (exact (innerHeight pg))
               (exact (top (getBoundingClientRect pg c)))
               (exact (bottom (getBoundingClientRect pg c))).

(** [activeView({ updateDelay: 1.5 })] and
    [activeView({ updateDelay: 2147483648 })]. *)
Definition fractional_delay_directive : directive :=
  {| OPTS := assign_defaults (only_updateDelay (VNum (ratio 3 2)));
     UPDATE_METHOD := Some partiallyVisible_ |}.

Definition wrapping_delay_directive : directive :=
  {| OPTS := assign_defaults (only_updateDelay (VNum (int 2147483648)));
     UPDATE_METHOD := Some partiallyVisible_ |}.

(** The times of the evaluations run so far. *)
Definition run_times (st : state) : list Z := map fst (runs st).

End Props.

(* ================================================================== *)
(** * Facts about the language layer *)
(* ================================================================== *)

Module JSFacts.

Import JS Props.
Local Open Scope Z_scope.

Lemma compare_rank (x y : jsnum) :
  is_NaN x = false -> is_NaN y = false ->
  (SFcompare x y = Some Lt /\ below (rank x) (rank y)) \/
  (SFcompare x y = Some Eq /\ rank x = rank y) \/
  (SFcompare x y = Some Gt /\ below (rank y) (rank x)).
Proof.
  unfold below.
  destruct x as [sx|sx| |sx mx ex], y as [sy|sy| |sy my ey]; try discriminate;
    intros _ _; simpl;
    try (destruct sx); try (destruct sy); simpl;
    try (left; split; [reflexivity|lia]);
    try (right; left; split; reflexivity);
    try (right; right; split; [reflexivity|lia]);
    destruct (Z.compare_spec ex ey);
    try (left; split; [reflexivity|lia]);
    try (right; right; split; [reflexivity|lia]);
    change (Pos.compare_cont Eq mx my) with (Pos.compare mx my);
    destruct (Pos.compare_spec mx my); simpl; subst;
    try (left; split; [reflexivity|lia]);
    try (right; left; split; reflexivity);
    try (right; right; split; [reflexivity|lia]).
Qed.

Lemma compare_nan_l (x y : jsnum) : is_NaN x = true -> SFcompare x y = None.
Proof. destruct x; try discriminate. reflexivity. Qed.

Lemma compare_nan_r (x y : jsnum) : is_NaN y = true -> SFcompare x y = None.
Proof. destruct y; try discriminate. destruct x; reflexivity. Qed.

Lemma jlt_spec (x y : jsnum) :
  (jlt x y = true <-> is_NaN x = false /\ is_NaN y = false /\ below (rank x) (rank y)) /\
  (jlt x y = false <-> is_NaN x = true \/ is_NaN y = true \/ ~ below (rank x) (rank y)).
Proof.
  unfold jlt, IsLessThan.
  destruct (is_NaN x) eqn:Nx; [rewrite (compare_nan_l x y Nx); intuition congruence|].
  destruct (is_NaN y) eqn:Ny; [rewrite (compare_nan_r x y Ny); intuition congruence|].
  destruct (compare_rank x y Nx Ny) as [[E B]|[[E B]|[E B]]]; rewrite E;
    unfold below in *; try rewrite B; intuition (congruence || lia).
Qed.

Lemma jle_spec (x y : jsnum) :
  (jle x y = true <-> is_NaN x = false /\ is_NaN y = false /\ ~ below (rank y) (rank x)) /\
  (jle x y = false <-> is_NaN x = true \/ is_NaN y = true \/ below (rank y) (rank x)).
Proof.
  unfold jle, IsLessThan.
  destruct (is_NaN x) eqn:Nx; [rewrite (compare_nan_r y x Nx); intuition congruence|].
  destruct (is_NaN y) eqn:Ny; [rewrite (compare_nan_l y x Ny); intuition congruence|].
  destruct (compare_rank y x Ny Nx) as [[E B]|[[E B]|[E B]]]; rewrite E;
    unfold below in *; try rewrite B; intuition (congruence || lia).
Qed.

Lemma jgt_jlt (x y : jsnum) : jgt x y = jlt y x.
Proof. reflexivity. Qed.

Lemma jge_jle (x y : jsnum) : jge x y = jle y x.
Proof. reflexivity. Qed.

Ltac order_step :=
  match goal with
  | H : jlt ?x ?y = true |- _ => apply (proj1 (jlt_spec x y)) in H
  | H : jlt ?x ?y = false |- _ => apply (proj2 (jlt_spec x y)) in H
  | H : jle ?x ?y = true |- _ => apply (proj1 (jle_spec x y)) in H
  | H : jle ?x ?y = false |- _ => apply (proj2 (jle_spec x y)) in H
  | |- jlt ?x ?y = true => apply (proj1 (jlt_spec x y))
  | |- jlt ?x ?y = false => apply (proj2 (jlt_spec x y))
  | |- jle ?x ?y = true => apply (proj1 (jle_spec x y))
  | |- jle ?x ?y = false => apply (proj2 (jle_spec x y))
  end.

Ltac order_abstract :=
  repeat match goal with
         | H : context [is_NaN _] |- _ => revert H
         | H : context [rank _] |- _ => revert H
         end;
  try change (is_NaN zero) with false;
  try change (rank zero) with ((0, 0, 0)%Z);
  repeat match goal with
         | |- context [is_NaN ?x] => generalize (is_NaN x); intros [|]
         end;
  repeat match goal with
         | |- context [rank ?x] => generalize (rank x); intros [[? ?] ?]
         end.

Ltac order :=
  rewrite ?jgt_jlt, ?jge_jle in *;
  repeat order_step;
  unfold below in *; order_abstract; cbn [fst snd] in *;
  intuition (try congruence; try lia).

End JSFacts.

(* ================================================================== *)
(** * The detection methods *)
(* ================================================================== *)

Module DetectionFacts.

Import JS Host ActiveView Props JSFacts.

Section Scan.
Variable pg : page.
Variable t : rect -> bool.
Variable P : rect -> Prop.
Hypothesis t_P : forall r, t r = true <-> P r.

Lemma getCommonValues_geometry (el : entry) (r : rect) :
  getCommonValues pg el = Normal r <-> geometry pg el = Some r.
Proof.
  unfold getCommonValues, geometry. destruct (content el); split; congruence.
Qed.

Lemma scan_cons_rejected k el rest :
  rejected pg P (k, el) -> scan pg t ((k, el) :: rest) = scan pg t rest.
Proof.
  intros [r [Hg Hn]]. simpl in Hg. apply getCommonValues_geometry in Hg.
  simpl. rewrite Hg. destruct (t r) eqn:E; [|reflexivity].
  apply t_P in E. contradiction.
Qed.

Lemma scan_first_match els l :
  scan pg t els = Normal (Some l) <-> first_match pg P els l.
Proof.
  split.
  - induction els as [|[k el] rest IH]; simpl; [discriminate|].
    destruct (getCommonValues pg el) as [r|e] eqn:G; [|discriminate].
    apply getCommonValues_geometry in G.
    destruct (t r) eqn:E.
    + intro H. injection H as H.
      exists [], k, el, rest, r. simpl.
      repeat split; auto. apply t_P; exact E.
    + intro H. destruct (IH H) as (pre & k' & el' & post & r' & -> & Hpre & Hg & Hp & Hl).
      exists ((k, el) :: pre), k', el', post, r'. simpl.
      repeat split; auto. constructor; [|exact Hpre].
      exists r. simpl. split; [exact G|]. intro HP. apply t_P in HP. congruence.
  - intros (pre & k & el & post & r & -> & Hpre & Hg & Hp & Hl).
    induction Hpre as [|[k' el'] pre Hrej _ IH]; simpl.
    + apply getCommonValues_geometry in Hg. rewrite Hg.
      apply t_P in Hp. rewrite Hp. congruence.
    + change (scan pg t (((k', el') :: pre) ++ (k, el) :: post) = Normal (Some l)).
      simpl app. rewrite (scan_cons_rejected _ Hrej). exact IH.
Qed.

Lemma scan_none els :
  scan pg t els = Normal None <-> Forall (rejected pg P) els.
Proof.
  split.
  - induction els as [|[k el] rest IH]; simpl; [constructor|].
    destruct (getCommonValues pg el) as [r|e] eqn:G; [|discriminate].
    apply getCommonValues_geometry in G.
    destruct (t r) eqn:E; [discriminate|].
    intro H. constructor; [|exact (IH H)].
    exists r. simpl. split; [exact G|]. intro HP. apply t_P in HP. congruence.
  - induction 1 as [|[k el] rest Hrej _ IH]; [reflexivity|].
    rewrite (scan_cons_rejected _ Hrej). exact IH.
Qed.

End Scan.

Lemma partial_test_ok w a r : partial_test w a r = true <-> partial_ok w a r.
Proof. unfold partial_test, partial_ok. apply andb_true_iff. Qed.

Lemma complete_test_ok w r : complete_test w r = true <-> complete_ok w r.
Proof. unfold complete_test, complete_ok. apply andb_true_iff. Qed.

Lemma partiallyVisible_scan O pg els w :
  partiallyVisible O pg els w =
  scan pg (partial_test w (ToNumber (advance O))) els.
Proof.
  unfold partiallyVisible.
  induction els as [|[k el] rest IH]; simpl; [reflexivity|].
  destruct (getCommonValues pg el) as [r|e]; [|reflexivity].
  unfold partial_test. rewrite IH. reflexivity.
Qed.

Lemma completelyVisible_scan pg els w :
  completelyVisible pg els w = scan pg (complete_test w) els.
Proof.
  induction els as [|[k el] rest IH]; simpl; [reflexivity|].
  destruct (getCommonValues pg el) as [r|e]; [|reflexivity].
  unfold complete_test. rewrite IH. reflexivity.
Qed.

(** The partial policy returns the link of the first pair, in the order
    the registry enumerates them, that passes its test. *)
Lemma partiallyVisible_first_in_enumeration
      (O : options) (pg : page) (els : object entry) (wHeight : jsnum) :
  (forall l, partiallyVisible O pg els wHeight = Normal (Some l) <->
             first_match pg (partial_ok wHeight (ToNumber (advance O))) els l) /\
  (partiallyVisible O pg els wHeight = Normal None <->
   Forall (rejected pg (partial_ok wHeight (ToNumber (advance O)))) els).
Proof.
  rewrite partiallyVisible_scan. split.
  - intro l. apply scan_first_match. intro r. apply partial_test_ok.
  - apply scan_none. intro r. apply partial_test_ok.
Qed.

(** The complete policy returns the link of the first pair, in the order
    the registry enumerates them, that lies wholly inside the viewport. *)
Lemma completelyVisible_first_in_enumeration
      (pg : page) (els : object entry) (wHeight : jsnum) :
  (forall l, completelyVisible pg els wHeight = Normal (Some l) <->
             first_match pg (complete_ok wHeight) els l) /\
  (completelyVisible pg els wHeight = Normal None <->
   Forall (rejected pg (complete_ok wHeight)) els).
Proof.
  rewrite completelyVisible_scan. split.
  - intro l. apply scan_first_match. intro r. apply complete_test_ok.
  - apply scan_none. intro r. apply complete_test_ok.
Qed.

Section Screenspace.
Variable O : options.
Variable pg : page.
Variables w L : jsnum.
Hypothesis L_def : ToNumber (largeEnough O) = L.

(** One turn of the loop on a measured pair. *)
Lemma screenspace_loop_cons k el rest r b cur :
  geometry pg el = Some r ->
  screenspace_loop O pg w ((k, el) :: rest) b cur =
  if jgt (top r) w || jlt (bottom r) zero
  then screenspace_loop O pg w rest b cur
  else if jgt (share w r) b
       then if jge (share w r) L
            then Normal (Some (link el))
            else screenspace_loop O pg w rest (share w r) (Some (link el))
       else screenspace_loop O pg w rest b cur.
Proof.
  intro G. apply getCommonValues_geometry in G.
  cbn [screenspace_loop]. rewrite G, L_def. reflexivity.
Qed.

Lemma skipped_not_considered (r : rect) :
  jgt (top r) w || jlt (bottom r) zero = true <-> ~ considered w r.
Proof.
  unfold considered. rewrite orb_true_iff. split.
  - intros H Hc. apply Hc. exact H.
  - intro H. destruct (jgt (top r) w); [left; reflexivity|].
    destruct (jlt (bottom r) zero); [right; reflexivity|].
    exfalso. apply H. intros [H3|H3]; discriminate.
Qed.

Lemma kept_considered (r : rect) :
  jgt (top r) w || jlt (bottom r) zero = false -> considered w r.
Proof.
  intros S Hn. apply orb_true_iff in Hn. congruence.
Qed.

Lemma share_in_head k el r x :
  geometry pg el = Some r -> share_in pg w (k, el) x ->
  considered w r /\ x = share w r.
Proof.
  intros G (r' & G' & Hc & Hx). simpl in G'.
  rewrite G in G'. injection G' as <-. auto.
Qed.

Ltac loop_cases r b :=
  match goal with
  | |- context [jgt (top r) w || jlt (bottom r) zero] =>
      let S := fresh "Hskip" in
      destruct (jgt (top r) w || jlt (bottom r) zero) eqn:S;
      [ apply skipped_not_considered in S
      | apply kept_considered in S;
        let B := fresh "Hbig" in
        destruct (jgt (share w r) b) eqn:B;
        [ let Lg := fresh "Hlarge" in
          destruct (jge (share w r) L) eqn:Lg
        | ] ]
  end.

(** What the loop returns when every pair can be measured: the link it
    was given, and then no share exceeds the running maximum [b]; or the
    link of a pair whose share [s] exceeds [b], is not reached or tied by
    any earlier share and, unless it reaches [largeEnough], is not
    exceeded by any later one. *)
Lemma screenspace_loop_inv (els : object entry) :
  Forall (resolved pg) els ->
  forall (b : jsnum) (cur : option node),
    let res := screenspace_loop O pg w els b cur in
    (res = Normal cur /\
     forall ke x, In ke els -> share_in pg w ke x -> jgt x b = false)
    \/
    (exists pre k el post r,
        els = pre ++ (k, el) :: post /\
        geometry pg el = Some r /\ considered w r /\
        jgt (share w r) b = true /\
        res = Normal (Some (link el)) /\
        (forall ke x, In ke pre -> share_in pg w ke x ->
                      jle (share w r) x = false /\
                      (jgt x b = false \/ jge x L = false)) /\
        (jge (share w r) L = true \/
         forall ke x, In ke post -> share_in pg w ke x ->
                      jgt x (share w r) = false)).
Proof.
  induction 1 as [|[k el] rest [r G] _ IH]; intros b cur res.
  - left. split; [reflexivity|]. intros ke x [].
  - simpl in G. subst res. rewrite (@screenspace_loop_cons k el rest r b cur G).
    loop_cases r b.
    + (* skipped *)
      destruct (IH b cur)
        as [[Hres Hall] | (pre & k' & el' & post & r' & -> & G' & Hc & Hb & Hres & Hpre & Hpost)].
      * left. split; [exact Hres|].
        intros ke x [<-|Hin] Hs; [|eauto].
        destruct (share_in_head G Hs) as [Hc _]. contradiction.
      * right. exists ((k, el) :: pre), k', el', post, r'.
        split; [reflexivity|]. do 4 (split; [assumption|]).
        split; [|exact Hpost].
        intros ke x [<-|Hin] Hs; [|apply (Hpre _ _ Hin Hs)].
        destruct (share_in_head G Hs) as [Hc' _]. contradiction.
    + (* a new maximum that is large enough *)
      right. exists [], k, el, rest, r.
      split; [reflexivity|]. split; [exact G|]. split; [assumption|].
      split; [assumption|]. split; [reflexivity|].
      split; [intros ke x []|].
      left; assumption.
    + (* a new maximum below largeEnough *)
      destruct (IH (share w r) (Some (link el)))
        as [[Hres Hall] | (pre & k' & el' & post & r' & -> & G' & Hc & Hb & Hres & Hpre & Hpost)].
      * right. exists [], k, el, rest, r.
        split; [reflexivity|]. split; [exact G|]. split; [assumption|].
        split; [assumption|]. split; [exact Hres|].
        split; [intros ke x []|].
        right. exact Hall.
      * right. exists ((k, el) :: pre), k', el', post, r'.
        split; [reflexivity|]. split; [exact G'|]. split; [assumption|].
        split; [clear - Hbig Hb; order|]. split; [exact Hres|].
        split; [|exact Hpost].
        intros ke x [<-|Hin] Hs.
        -- destruct (share_in_head G Hs) as [_ ->].
           clear - Hbig Hb Hlarge. split; [order|right; exact Hlarge].
        -- destruct (Hpre _ _ Hin Hs) as [H1 H2]. split; [exact H1|].
           clear - H2 Hbig Hlarge. destruct H2 as [H2|H2]; [|right; exact H2].
           right. order.
    + (* not a new maximum *)
      destruct (IH b cur)
        as [[Hres Hall] | (pre & k' & el' & post & r' & -> & G' & Hc & Hb & Hres & Hpre & Hpost)].
      * left. split; [exact Hres|].
        intros ke x [<-|Hin] Hs; [|eauto].
        destruct (share_in_head G Hs) as [_ ->]. exact Hbig.
      * right. exists ((k, el) :: pre), k', el', post, r'.
        split; [reflexivity|]. do 4 (split; [assumption|]).
        split; [|exact Hpost].
        intros ke x [<-|Hin] Hs; [|apply (Hpre _ _ Hin Hs)].
        destruct (share_in_head G Hs) as [_ ->].
        split; [clear - Hbig Hb; order|left; exact Hbig].
Qed.

(** The loop stops at the first pair whose share is a new maximum and
    reaches [largeEnough], whatever comes after it. *)
Lemma screenspace_loop_stop (pre : object entry) :
  Forall (resolved pg) pre ->
  forall b cur k el post r,
    (forall ke x, In ke pre -> share_in pg w ke x ->
                  jgt x b = false \/ jge x L = false) ->
    geometry pg el = Some r -> considered w r ->
    jgt (share w r) b = true -> jge (share w r) L = true ->
    screenspace_loop O pg w (pre ++ (k, el) :: post) b cur =
    Normal (Some (link el)).
Proof.
  induction 1 as [|[k0 el0] pre [r0 G0] _ IH];
    intros b cur k el post r Hpre G Hc Hb HL.
  - simpl app. rewrite (@screenspace_loop_cons k el post r b cur G).
    loop_cases r b; try contradiction; try congruence.
  - simpl in G0. simpl app.
    rewrite (@screenspace_loop_cons k0 el0 (pre ++ (k, el) :: post) r0 b cur G0).
    assert (Hrest : forall ke x, In ke pre -> share_in pg w ke x ->
                                 jgt x b = false \/ jge x L = false)
      by (intros ke x Hin; apply Hpre; right; exact Hin).
    assert (Hhead : considered w r0 ->
                    jgt (share w r0) b = false \/ jge (share w r0) L = false).
    { intro Hc0. apply (Hpre (k0, el0)); [left; reflexivity|].
      exists r0. auto. }
    loop_cases r0 b.
    + apply IH with (r := r); auto.
    + destruct (Hhead Hskip); congruence.
    + apply IH with (r := r); auto.
      * intros ke x Hin Hs. destruct (Hrest _ _ Hin Hs) as [H1|H1]; [|right; exact H1].
        right. clear - H1 Hbig Hlarge. order.
      * clear - Hbig Hlarge HL. order.
    + apply IH with (r := r); auto.
Qed.

(** What [screenspace] returns, read in the order the registry
    enumerates its pairs. *)
Lemma screenspace_in_enumeration (els : object entry) :
  (forall pre k el post r,
      els = pre ++ (k, el) :: post ->
      Forall (resolved pg) pre ->
      (forall ke x, In ke pre -> share_in pg w ke x ->
                    ~ (jgt x zero = true /\ jge x L = true)) ->
      geometry pg el = Some r -> considered w r ->
      jgt (share w r) zero = true -> jge (share w r) L = true ->
      screenspace O pg els w = Normal (Some (link el))) /\
  (Forall (resolved pg) els ->
   (screenspace O pg els w = Normal None /\
    forall ke x, In ke els -> share_in pg w ke x -> jgt x zero = false)
   \/
   (exists pre k el post r,
       els = pre ++ (k, el) :: post /\
       geometry pg el = Some r /\ considered w r /\
       jgt (share w r) zero = true /\
       screenspace O pg els w = Normal (Some (link el)) /\
       (forall ke x, In ke pre -> share_in pg w ke x ->
                     jle (share w r) x = false /\
                     ~ (jgt x zero = true /\ jge x L = true)) /\
       (jge (share w r) L = true \/
        forall ke x, In ke post -> share_in pg w ke x ->
                     jgt x (share w r) = false))) /\
  (Forall (resolved pg) els ->
   (forall ke x, In ke els -> share_in pg w ke x -> jgt x zero = false) ->
   screenspace O pg els w = Normal None).
Proof.
  split; [|split].
  - intros pre k el post r -> Hres Hpre G Hc Hpos Hlarge.
    unfold screenspace.
    apply (@screenspace_loop_stop pre Hres) with (r := r); auto.
    intros ke x Hin Hs. specialize (Hpre _ _ Hin Hs).
    destruct (jgt x zero); [|left; reflexivity].
    destruct (jge x L); [|right; reflexivity].
    exfalso. apply Hpre. split; reflexivity.
  - intro Hres. unfold screenspace.
    destruct (@screenspace_loop_inv els Hres zero None)
      as [[Hr Hall] | (pre & k & el & post & r & -> & G & Hc & Hb & Hr & Hpre & Hpost)].
    + left. split; assumption.
    + right. exists pre, k, el, post, r.
      split; [reflexivity|]. do 4 (split; [assumption|]).
      split; [|exact Hpost].
      intros ke x Hin Hs. destruct (Hpre _ _ Hin Hs) as [H1 H2].
      split; [exact H1|]. intros [H3 H4]. destruct H2; congruence.
  - intros Hres Hall. unfold screenspace.
    destruct (@screenspace_loop_inv els Hres zero None)
      as [[Hr _] | (pre & k & el & post & r & -> & G & Hc & Hb & _)].
    + exact Hr.
    + exfalso.
      assert (Hle : jgt (share w r) zero = false).
      { apply (Hall (k, el)); [apply in_elt|]. exists r. auto. }
      congruence.
Qed.

End Screenspace.

End DetectionFacts.

(* ================================================================== *)
(** * Construction and validateOpts *)
(* ================================================================== *)

Module ValidationFacts.

Import JS Host ActiveView Props JSFacts.
Local Open Scope string_scope.

Lemma isString_typeof (v : jsval) : isString v = true <-> typeof v = "string".
Proof. unfold isString. apply String.eqb_eq. Qed.

Lemma isNumber_reads (v : jsval) : isNumber v = true <-> reads_as_number v.
Proof.
  unfold isNumber, reads_as_number, isNaN, NaN. simpl.
  destruct (parseFloat v); simpl; split; congruence.
Qed.

Lemma reads_number (x : jsnum) : reads_as_number (VNum x) <-> is_NaN x = false.
Proof.
  unfold reads_as_number. destruct x; cbv [parseFloat zero NaN is_NaN];
    split; congruence.
Qed.

Lemma not_below_zero (x : jsnum) :
  is_NaN x = false /\ jlt x zero = false <-> jge x zero = true.
Proof. split; [intros [H1 H2]|intro H; split]; order. Qed.

Lemma isBetween_iff (v : jsval) (a b : jsnum) :
  isBetween v a b = true <-> ge_num v a = true /\ le_num v b = true.
Proof.
  unfold isBetween. destruct (ge_num v a), (le_num v b); intuition congruence.
Qed.

Lemma method_check_iff (v : jsval) :
  isString v = true /\ hasOwnProperty_method v = true <-> table_method v.
Proof.
  unfold table_method, hasOwnProperty_method, lookup_method.
  destruct v as [| |b|n|s];
    try (split; [intros [H _]; discriminate | intros [H|[H|H]]; discriminate]).
  unfold DETECTION_METHODS. cbn [get].
  destruct (String.eqb "partial" s) eqn:E1.
  { apply String.eqb_eq in E1; subst. split; auto. }
  destruct (String.eqb "screenspace" s) eqn:E2.
  { apply String.eqb_eq in E2; subst. split; auto. }
  destruct (String.eqb "complete" s) eqn:E3.
  { apply String.eqb_eq in E3; subst. split; auto. }
  apply String.eqb_neq in E1, E2, E3.
  split; [intros [_ H]; discriminate|].
  intros [H|[H|H]]; injection H as H; congruence.
Qed.

Lemma first_invalid_none (O : options) : first_invalid O = None <-> accepted O.
Proof.
  unfold accepted.
  rewrite <- isString_typeof, <- !isNumber_reads, <- method_check_iff.
  unfold first_invalid.
  rewrite <- (isBetween_iff (advance O)), <- (isBetween_iff (largeEnough O)).
  destruct (isString (className O)); simpl; [|intuition congruence].
  destruct (isNumber (updateDelay O)); simpl; [|intuition congruence].
  destruct (lt_num (updateDelay O) zero); simpl; [intuition congruence|].
  destruct (isString (method O)); simpl; [|intuition congruence].
  destruct (hasOwnProperty_method (method O)); simpl; [|intuition congruence].
  destruct (isNumber (advance O)); simpl; [|intuition congruence].
  destruct (isBetween (advance O) zero one); simpl; [|intuition congruence].
  destruct (isNumber (largeEnough O)); simpl; [|intuition congruence].
  destruct (isBetween (largeEnough O) zero one); simpl; intuition congruence.
Qed.

Lemma throws_iff_first_invalid (u : user_options) :
  throws u <-> first_invalid (assign_defaults u) <> None.
Proof.
  unfold throws, activeView, validateOpts.
  destruct (first_invalid (assign_defaults u)) as [[v err]|].
  - split; [discriminate|]. intros _. eexists; reflexivity.
  - split; [intros [e H]; discriminate | congruence].
Qed.

Lemma table_ok_accepted (O : options) : table_ok O -> accepted O.
Proof.
  intros ((s & Hs & _) & (n & Hn & Hn0) & Hm & (a & Ha & Ha0 & Ha1) & (l & Hl & Hl0 & Hl1)).
  unfold accepted, lt_num, ge_num, le_num.
  rewrite Hs, Hn, Ha, Hl, !reads_number. cbn [typeof ToNumber].
  apply not_below_zero in Hn0. pose proof (proj2 (not_below_zero a) Ha0).
  pose proof (proj2 (not_below_zero l) Hl0). tauto.
Qed.

Lemma accepted_typed (O : options) :
  numeric_options_typed O ->
  (accepted O <->
   typeof (className O) = "string" /\
   table_updateDelay (updateDelay O) /\
   table_method (method O) /\
   table_unit (advance O) /\
   table_unit (largeEnough O)).
Proof.
  intros ((n & Hn) & (a & Ha) & (l & Hl)).
  unfold accepted, lt_num, ge_num, le_num, table_updateDelay, table_unit.
  rewrite Hn, Ha, Hl, !reads_number. cbn [ToNumber].
  split.
  - intros (Hc & Hd & Hm & (_ & Ha0 & Ha1) & (_ & Hl0 & Hl1)).
    split; [exact Hc|].
    split; [exists n; split; [reflexivity|apply not_below_zero; exact Hd]|].
    split; [exact Hm|]. split; [exists a; auto | exists l; auto].
  - intros (Hc & (n' & En & Hd) & Hm & (a' & Ea & Ha0 & Ha1) & (l' & El & Hl0 & Hl1)).
    injection En as <-. injection Ea as <-. injection El as <-.
    split; [exact Hc|]. split; [apply not_below_zero; exact Hd|].
    split; [exact Hm|].
    split; (split; [apply (proj2 (not_below_zero _)); assumption | auto]).
Qed.

Lemma throws_iff_not_accepted (u : user_options) :
  throws u <-> ~ accepted (assign_defaults u).
Proof.
  rewrite throws_iff_first_invalid, <- first_invalid_none.
  destruct (first_invalid (assign_defaults u)); split; congruence.
Qed.

(** C5, as the source has it by design.  Every option object that
    satisfies the configuration table passes.  When the numeric options
    are numbers, as the table types them, construction throws exactly
    when [className] is not a string (any string passes, the empty one
    too), [updateDelay] is not a number at least 0, [method] is not one
    of the three names, or [advance] or [largeEnough] is not a number
    between 0 and 1. *)
Theorem activeView_throws_iff (u : user_options) :
  (table_ok (assign_defaults u) -> ~ throws u) /\
  (numeric_options_typed (assign_defaults u) ->
   (throws u <->
    ~ (typeof (className (assign_defaults u)) = "string" /\
       table_updateDelay (updateDelay (assign_defaults u)) /\
       table_method (method (assign_defaults u)) /\
       table_unit (advance (assign_defaults u)) /\
       table_unit (largeEnough (assign_defaults u))))).
Proof.
  pose proof (throws_iff_not_accepted u) as T.
  split.
  - intros Hok Ht. apply T in Ht. apply Ht. apply table_ok_accepted. exact Hok.
  - intro Hty. rewrite T, (accepted_typed Hty). reflexivity.
Qed.

(** The empty class name is accepted, against the table; so the table
    does not decide when construction throws. *)
Lemma activeView_accepts_outside_table :
  ~ throws (only_className (VStr EmptyString)) /\
  numeric_options_typed (assign_defaults (only_className (VStr EmptyString))) /\
  ~ table_ok (assign_defaults (only_className (VStr EmptyString))) /\
  ~ (forall u, throws u <-> ~ table_ok (assign_defaults u)).
Proof.
  assert (A : ~ throws (only_className (VStr EmptyString)) /\
              ~ table_ok (assign_defaults (only_className (VStr EmptyString)))).
  { split.
    - intros [e H]. vm_compute in H. discriminate.
    - intros ((s & Hs & Hne) & _). simpl in Hs. injection Hs as <-. congruence. }
  split; [exact (proj1 A)|].
  split; [repeat split; eexists; reflexivity|].
  split; [exact (proj2 A)|].
  intro H. destruct A as [A1 A2]. apply A1. apply H. exact A2.
Qed.

(** The table's words on the defaults. *)
Lemma activeView_throws_iff_witness :
  table_ok (assign_defaults no_options) /\
  numeric_options_typed (assign_defaults no_options) /\
  ~ throws no_options /\
  (throws no_options <->
   ~ (typeof (className (assign_defaults no_options)) = "string" /\
      table_updateDelay (updateDelay (assign_defaults no_options)) /\
      table_method (method (assign_defaults no_options)) /\
      table_unit (advance (assign_defaults no_options)) /\
      table_unit (largeEnough (assign_defaults no_options)))).
Proof.
  assert (H : table_ok (assign_defaults no_options)).
  { unfold table_ok, table_className, table_updateDelay, table_method, table_unit.
    simpl. split; [eexists; split; [reflexivity|discriminate]|].
    split; [eexists; split; reflexivity|].
    split; [left; reflexivity|].
    split; eexists; split; [reflexivity|split; reflexivity|reflexivity|split; reflexivity]. }
  assert (T : numeric_options_typed (assign_defaults no_options))
    by (repeat split; eexists; reflexivity).
  split; [exact H|]. split; [exact T|].
  split; [exact (proj1 (activeView_throws_iff no_options) H)|].
  exact (proj2 (activeView_throws_iff no_options) T).
Defined.

(** Which option each error names. *)
Lemma first_invalid_names (O : options) (v : jsval) (err : string) :
  first_invalid O = Some (v, err) ->
  (v = className O /\ mentions "className" [Text err] = true) \/
  (v = updateDelay O /\ mentions "updateDelay" [Text err] = true) \/
  (v = method O /\ mentions "className" [Text err] = true /\
   mentions "method" [Text err] = false) \/
  (v = advance O /\ mentions "advance" [Text err] = true) \/
  (v = largeEnough O /\ mentions "largeEnough" [Text err] = true).
Proof.
  unfold first_invalid.
  destruct (negb (isString (className O))).
  { intro H; injection H as <- <-. left. split; reflexivity. }
  destruct (negb (isNumber (updateDelay O)) || lt_num (updateDelay O) zero).
  { intro H; injection H as <- <-. right; left. split; reflexivity. }
  destruct (negb (isString (method O)) || negb (hasOwnProperty_method (method O))).
  { intro H; injection H as <- <-. right; right; left. repeat split; reflexivity. }
  destruct (negb (isNumber (advance O)) || negb (isBetween (advance O) zero one)).
  { intro H; injection H as <- <-. do 3 right; left. split; reflexivity. }
  destruct (negb (isNumber (largeEnough O)) ||
            negb (isBetween (largeEnough O) zero one)).
  { intro H; injection H as <- <-. do 4 right. split; reflexivity. }
  discriminate.
Qed.

(** C6 at an invalid method.  [activeView({ method: 'foo' })] throws an
    error that shows the value passed, [foo], but names the option
    [className]; the word [method] does not occur in it.  The claim asks
    for an error naming [method]. *)
Theorem invalid_method_error_names_className :
  exists m,
    activeView (only_method (VStr "foo")) = Throw (Error m) /\
    shows (VStr "foo") m /\
    mentions "className" m = true /\
    mentions "method" m = false /\
    render m =
    Some ("[v-active-view] Invalid option for " ++ quote ++ "className" ++ quote ++
          ". Needs to be a string of value " ++ quote ++ "partial" ++ quote ++
          ", " ++ quote ++ "screenspace" ++ quote ++ " or " ++ quote ++
          "complete" ++ quote ++ ". Passed option: foo.").
Proof.
  eexists. split; [vm_compute; reflexivity|].
  split; [right; right; right; left; reflexivity|].
  split; [reflexivity|]. split; reflexivity.
Qed.

End ValidationFacts.

(* ================================================================== *)
(** * The registry *)
(* ================================================================== *)

Module RegistryFacts.

Import JS.
Local Open Scope string_scope.

Section ObjectFacts.
Variable A : Type.
Implicit Types (o : object A) (k : string) (v : A).

Lemma has_false_not_in o k : has o k = false -> ~ In k (keys o).
Proof.
  unfold has. induction o as [|[k' v'] o IH]; simpl; [tauto|].
  destruct (String.eqb k' k) eqn:E; [discriminate|].
  apply String.eqb_neq in E. intros H [H1|H1]; [congruence|]. exact (IH H H1).
Qed.

Lemma has_true_in o k : has o k = true -> In k (keys o).
Proof.
  unfold has. induction o as [|[k' v'] o IH]; simpl; [discriminate|].
  destruct (String.eqb k' k) eqn:E; [apply String.eqb_eq in E; auto|].
  intro H. right. exact (IH H).
Qed.

Lemma keys_replace o k v : keys (replace o k v) = keys o.
Proof.
  induction o as [|[k' v'] o IH]; simpl; [reflexivity|].
  destruct (String.eqb k' k); simpl; [reflexivity|]. rewrite IH. reflexivity.
Qed.

Lemma get_replace_same o k v : has o k = true -> get (replace o k v) k = Some v.
Proof.
  unfold has. induction o as [|[k' v'] o IH]; simpl; [discriminate|].
  destruct (String.eqb k' k) eqn:E; simpl; rewrite E; [reflexivity|]. exact IH.
Qed.

Lemma get_replace_other o k v k' :
  k' <> k -> get (replace o k v) k' = get o k'.
Proof.
  intro Hne. induction o as [|[k0 v0] o IH]; simpl; [reflexivity|].
  destruct (String.eqb k0 k) eqn:E; simpl.
  - apply String.eqb_eq in E. subst k0.
    destruct (String.eqb k k') eqn:E'; [|reflexivity].
    apply String.eqb_eq in E'. congruence.
  - rewrite IH. reflexivity.
Qed.

Lemma replace_same_value o k v : get o k = Some v -> replace o k v = o.
Proof.
  induction o as [|[k' v'] o IH]; simpl; [reflexivity|].
  destruct (String.eqb k' k) eqn:E.
  - intro H. injection H as ->. reflexivity.
  - intro H. rewrite (IH H). reflexivity.
Qed.

Lemma in_keys_insert_index o i k v k' :
  In k' (keys (insert_index o i k v)) <-> k' = k \/ In k' (keys o).
Proof.
  induction o as [|[k0 v0] o IH]; simpl; [intuition|].
  destruct (array_index k0) as [j|]; [destruct (j <? i)%Z|]; simpl;
    rewrite ?IH; intuition.
Qed.

Lemma NoDup_insert_index o i k v :
  ~ In k (keys o) -> NoDup (keys o) -> NoDup (keys (insert_index o i k v)).
Proof.
  induction o as [|[k0 v0] o IH]; simpl; intros Hn Hd.
  - constructor; [tauto|constructor].
  - assert (Hc : NoDup (k :: k0 :: keys o)) by (constructor; simpl; tauto).
    destruct (array_index k0) as [j|]; [destruct (j <? i)%Z|]; simpl; auto.
    inversion Hd; subst. constructor.
    + rewrite in_keys_insert_index. intros [H|H]; [subst; tauto|tauto].
    + apply IH; tauto.
Qed.

Lemma get_insert_index_same o i k v :
  has o k = false -> get (insert_index o i k v) k = Some v.
Proof.
  unfold has. induction o as [|[k0 v0] o IH]; simpl.
  - rewrite String.eqb_refl. reflexivity.
  - destruct (String.eqb k0 k) eqn:E; [discriminate|]. intro H.
    destruct (array_index k0) as [j|]; [destruct (j <? i)%Z|]; simpl;
      rewrite ?E, ?String.eqb_refl; auto.
Qed.

Lemma get_insert_index_other o i k v k' :
  k' <> k -> get (insert_index o i k v) k' = get o k'.
Proof.
  intro Hne. assert (E : String.eqb k k' = false)
    by (apply String.eqb_neq; congruence).
  induction o as [|[k0 v0] o IH]; simpl; [rewrite E; reflexivity|].
  destruct (array_index k0) as [j|]; [destruct (j <? i)%Z|]; simpl;
    rewrite ?E, ?IH; reflexivity.
Qed.

Lemma get_app_last_same o k v : has o k = false -> get (o ++ [(k, v)])%list k = Some v.
Proof.
  unfold has. induction o as [|[k0 v0] o IH]; simpl.
  - rewrite String.eqb_refl. reflexivity.
  - destruct (String.eqb k0 k); [discriminate|]. exact IH.
Qed.

Lemma get_app_last_other o k v k' :
  k' <> k -> get (o ++ [(k, v)])%list k' = get o k'.
Proof.
  intro Hne. induction o as [|[k0 v0] o IH]; simpl.
  - destruct (String.eqb k k') eqn:E; [|reflexivity].
    apply String.eqb_eq in E. congruence.
  - rewrite IH. reflexivity.
Qed.

Lemma get_set_same o k v : get (set o k v) k = Some v.
Proof.
  unfold set. destruct (has o k) eqn:H.
  - apply get_replace_same. exact H.
  - destruct (array_index k).
    + apply get_insert_index_same. exact H.
    + apply get_app_last_same. exact H.
Qed.

Lemma get_set_other o k v k' : k' <> k -> get (set o k v) k' = get o k'.
Proof.
  intro Hne. unfold set. destruct (has o k).
  - apply get_replace_other. exact Hne.
  - destruct (array_index k).
    + apply get_insert_index_other. exact Hne.
    + apply get_app_last_other. exact Hne.
Qed.

Lemma NoDup_keys_set o k v : NoDup (keys o) -> NoDup (keys (set o k v)).
Proof.
  intro Hd. unfold set. destruct (has o k) eqn:H.
  - rewrite keys_replace. exact Hd.
  - apply has_false_not_in in H. destruct (array_index k).
    + apply NoDup_insert_index; assumption.
    + unfold keys. rewrite map_app. simpl.
      apply NoDup_app; [exact Hd | constructor; [tauto|constructor] |].
      intros x Hx [<-|[]]. exact (H Hx).
Qed.

Lemma set_not_empty o k v : set o k v <> [].
Proof.
  unfold set. destruct (has o k) eqn:H.
  - destruct o as [|[k0 v0] o]; [discriminate|]. simpl.
    destruct (String.eqb k0 k); discriminate.
  - destruct (array_index k).
    + destruct o as [|[k0 v0] o]; simpl; [discriminate|].
      destruct (array_index k0) as [j|]; [destruct (j <? z)%Z|]; discriminate.
    + destruct o; discriminate.
Qed.

Lemma set_twice o k v : set (set o k v) k v = set o k v.
Proof.
  pose proof (get_set_same o k v) as G.
  unfold set at 1. unfold has. rewrite G.
  apply replace_same_value. exact G.
Qed.

Lemma keys_delete o k :
  keys (delete o k) = filter (fun k' => negb (String.eqb k' k)) (keys o).
Proof.
  induction o as [|[k' v'] o IH]; simpl; [reflexivity|].
  destruct (String.eqb k' k); simpl; rewrite IH; reflexivity.
Qed.

Lemma NoDup_keys_delete o k : NoDup (keys o) -> NoDup (keys (delete o k)).
Proof. intro H. rewrite keys_delete. apply NoDup_filter. exact H. Qed.

Lemma delete_absent o k : has o k = false -> delete o k = o.
Proof.
  unfold has. induction o as [|[k' v'] o IH]; simpl; [reflexivity|].
  destruct (String.eqb k' k); [discriminate|].
  intro H. rewrite (IH H). reflexivity.
Qed.

Lemma delete_not_empty o k : delete o k <> [] -> o <> [].
Proof. destruct o; simpl; congruence. Qed.

End ObjectFacts.

End RegistryFacts.

(* ================================================================== *)
(** * The directive and the browser *)
(* ================================================================== *)

Module DirectiveFacts.

Import JS Host ActiveView Props RegistryFacts.
Local Open Scope string_scope.
Local Open Scope Z_scope.

Section DirectiveProofs.
Variable D : directive.

(** ** What the timer callback leaves alone *)

Ltac callback_cases :=
  unfold callback, classList_remove, classList_add;
  repeat match goal with
         | |- context [match ?x with _ => _ end] => destruct x
         end;
  try reflexivity.

Lemma callback_frame pg st :
  let st' := callback D pg st in
  isBound st' = isBound st /\ elements st' = elements st /\
  scrollTimeout st' = scrollTimeout st /\ now st' = now st /\
  listening st' = listening st /\ pending st' = pending st /\
  nextHandle st' = nextHandle st /\
  runs st' = (runs st ++ [(now st, evaluate D pg (elements st))])%list.
Proof.
  unfold callback, classList_remove, classList_add.
  destruct (evaluate D pg (elements st)) as [[l|]|e]; simpl;
    try (repeat split; reflexivity).
  destruct (oldActive st); simpl;
    destruct (check_token (class_token (OPTS D))); simpl;
    repeat split; reflexivity.
Qed.

Lemma fire_frame pg due :
  forall st,
    let st' := fire D pg due st in
    isBound st' = isBound st /\ elements st' = elements st /\
    scrollTimeout st' = scrollTimeout st /\
    listening st' = listening st /\ pending st' = pending st /\
    nextHandle st' = nextHandle st.
Proof.
  induction due as [|[h t] due IH]; intro st; simpl.
  - repeat split; reflexivity.
  - destruct (IH (callback D pg (set_clock st t (pending st))))
      as (H1 & H2 & H3 & H4 & H5 & H6).
    destruct (callback_frame pg (set_clock st t (pending st)))
      as (C1 & C2 & C3 & _ & C5 & C6 & C7 & _).
    simpl in *. repeat split; congruence.
Qed.

Lemma elapse_frame pg t st :
  let st' := elapse D pg t st in
  isBound st' = isBound st /\ elements st' = elements st /\
  scrollTimeout st' = scrollTimeout st /\
  listening st' = listening st /\ nextHandle st' = nextHandle st /\
  pending st' = (if t <? now st then pending st
                 else filter (fun p => negb (snd p <=? t)) (pending st)).
Proof.
  unfold elapse. destruct (t <? now st); [repeat split; reflexivity|].
  match goal with
  | |- context [fire D pg ?due ?s] =>
      destruct (fire_frame pg due s) as (H1 & H2 & H3 & H4 & H5 & H6)
  end.
  simpl in *. repeat split; assumption.
Qed.

Lemma updateActive_frame st :
  let st' := updateActive D st in
  isBound st' = isBound st /\ elements st' = elements st /\
  listening st' = listening st /\ now st' = now st /\
  runs st' = runs st /\ oldActive st' = oldActive st /\
  mutations st' = mutations st /\
  scrollTimeout st' = Some (nextHandle st).
Proof.
  unfold updateActive, setTimeout, clearTimeout.
  destruct (scrollTimeout st); simpl; repeat split; reflexivity.
Qed.

(** Re-arming the timer leaves exactly the new one pending. *)
Lemma updateActive_pending st :
  one_timer st ->
  pending (updateActive D st) =
  [(nextHandle st, now st + timeout_ms (updateDelay (OPTS D)))].
Proof.
  unfold updateActive, setTimeout, clearTimeout.
  intros [E | (h & due & E & T)].
  - destruct (scrollTimeout st); simpl; rewrite E; reflexivity.
  - rewrite T. simpl. rewrite E. simpl. rewrite Nat.eqb_refl. reflexivity.
Qed.

(** ** Invariants of the reachable states *)

Lemma hasBoundElements_set (o : object entry) k v :
  hasBoundElements (set o k v) = true.
Proof.
  pose proof (@set_not_empty _ o k v) as H.
  destruct (set o k v); [congruence|reflexivity].
Qed.

Lemma unbind_subscribed contentId st :
  subscribed_iff_bound st -> subscribed_iff_bound (unbind contentId st).
Proof.
  unfold subscribed_iff_bound. intros [HL HB].
  unfold unbind.
  destruct (hasBoundElements (delete (elements st) contentId)) eqn:E; simpl.
  - rewrite E. split; [exact HL|].
    rewrite HB. destruct (elements st); [discriminate|reflexivity].
  - rewrite E. split; reflexivity.
Qed.

Lemma step_subscribed pg ev st :
  subscribed_iff_bound st -> subscribed_iff_bound (step D pg ev st).
Proof.
  unfold subscribed_iff_bound. intros [HL HB].
  destruct ev as [el id|el id| |t]; simpl.
  - unfold inserted. destruct (isBound st) eqn:B; simpl.
    + rewrite hasBoundElements_set. split; congruence.
    + destruct (updateActive_frame (set_registry st true true (elements st)))
        as (U1 & U2 & U3 & _).
      simpl in *. rewrite U1, U3, hasBoundElements_set. split; reflexivity.
  - apply unbind_subscribed. split; assumption.
  - unfold scroll. destruct (listening st) eqn:EL; [|split; congruence].
    destruct (updateActive_frame st) as (U1 & U2 & U3 & _).
    rewrite U1, U2, U3. split; congruence.
  - destruct (elapse_frame pg t st) as (E1 & E2 & _ & E4 & _).
    rewrite E1, E2, E4. split; assumption.
Qed.

Lemma one_timer_after_update st :
  one_timer st -> one_timer (updateActive D st).
Proof.
  intro H. right. exists (nextHandle st), (now st + timeout_ms (updateDelay (OPTS D))).
  split; [apply updateActive_pending; exact H|].
  apply updateActive_frame.
Qed.

Lemma one_timer_registry st b l els :
  one_timer st -> one_timer (set_registry st b l els).
Proof. exact (fun H => H). Qed.

Lemma step_one_timer pg ev st :
  one_timer st -> one_timer (step D pg ev st).
Proof.
  intro H. destruct ev as [el id|el id| |t]; simpl.
  - unfold inserted. destruct (isBound st); simpl.
    + exact H.
    + apply one_timer_registry.
      apply one_timer_after_update. exact H.
  - unfold unbind. destruct (hasBoundElements _); exact H.
  - unfold scroll. destruct (listening st); [|exact H].
    apply one_timer_after_update. exact H.
  - destruct (elapse_frame pg t st) as (_ & _ & E3 & _ & _ & E6).
    unfold one_timer. rewrite E3, E6.
    destruct (t <? now st); [exact H|].
    destruct H as [E | (h & due & E & T)]; rewrite E; simpl; [left; reflexivity|].
    destruct (due <=? t); simpl; [left; reflexivity|].
    right. exists h, due. split; [reflexivity|exact T].
Qed.

Lemma step_NoDup pg ev st :
  NoDup (keys (elements st)) -> NoDup (keys (elements (step D pg ev st))).
Proof.
  intro H. destruct ev as [el id|el id| |t]; simpl.
  - unfold inserted. destruct (isBound st); simpl.
    + apply NoDup_keys_set. exact H.
    + destruct (updateActive_frame (set_registry st true true (elements st)))
        as (_ & U2 & _).
      simpl in U2. rewrite U2. apply NoDup_keys_set. exact H.
  - unfold unbind. destruct (hasBoundElements _); simpl;
      apply NoDup_keys_delete; exact H.
  - unfold scroll. destruct (listening st); [|exact H].
    destruct (updateActive_frame st) as (_ & U2 & _). rewrite U2. exact H.
  - destruct (elapse_frame pg t st) as (_ & E2 & _). rewrite E2. exact H.
Qed.

Lemma reachable_invariants st :
  reachable D st ->
  subscribed_iff_bound st /\ one_timer st /\ NoDup (keys (elements st)).
Proof.
  induction 1 as [st (B & E & _ & _ & L & P & _) | pg ev st _ (I1 & I2 & I3) _].
  - unfold subscribed_iff_bound, one_timer. rewrite B, E, L, P. simpl.
    repeat split; auto. constructor.
  - split; [apply step_subscribed; exact I1|].
    split; [apply step_one_timer; exact I2 | apply step_NoDup; exact I3].
Qed.

Lemma inserted_bound pg el contentId st :
  isBound st = true ->
  inserted D pg el contentId st =
  set_registry st true (listening st)
    (set (elements st) contentId
         {| link := el; content := getElementById pg contentId |}).
Proof. intro B. unfold inserted. rewrite B. cbn [negb]. rewrite B. reflexivity. Qed.

Lemma inserted_unbound pg el contentId st :
  isBound st = false ->
  inserted D pg el contentId st =
  set_registry (updateActive D (set_registry st true true (elements st)))
    true true
    (set (elements st) contentId
         {| link := el; content := getElementById pg contentId |}).
Proof.
  intro B. unfold inserted. rewrite B. cbn [negb].
  destruct (updateActive_frame (set_registry st true true (elements st)))
    as (U1 & U2 & U3 & _).
  rewrite U1, U2, U3. reflexivity.
Qed.

(** ** The subscription *)

(** C7, as the source has it.  In every state reached from a fresh
    closure by binds of identifiers other than [__proto__], unbinds,
    scroll notifications and the passing of time, the flag [isBound], the
    scroll listener and the non-emptiness of the registry agree.  Hence
    the listener is added exactly on a step that takes the registry from
    empty to non-empty and removed exactly on a step that takes it from
    non-empty to empty, where the flag is reset too.  A bind of such an
    identifier into an empty registry subscribes and schedules one
    evaluation through the timer, due after the delay [setTimeout]
    derives from [updateDelay] ([timeout_ms]); it runs no evaluation
    itself. *)
Theorem subscription_follows_registry (st : state) :
  reachable D st ->
  (isBound st = true <-> elements st <> []) /\
  listening st = isBound st /\
  (forall pg ev,
      well_formed ev ->
      let st' := step D pg ev st in
      ((listening st = false /\ listening st' = true) <->
       (elements st = [] /\ elements st' <> [])) /\
      ((listening st = true /\ listening st' = false) <->
       (elements st <> [] /\ elements st' = [])) /\
      (elements st' = [] -> isBound st' = false)) /\
  (forall pg el contentId,
      own_key contentId ->
      elements st = [] ->
      let st' := inserted D pg el contentId st in
      isBound st' = true /\ listening st' = true /\
      runs st' = runs st /\
      pending st' =
      [(nextHandle st, now st + timeout_ms (updateDelay (OPTS D)))]).
Proof.
  intro R.
  assert (NE : forall s, subscribed_iff_bound s ->
                         (listening s = true <-> elements s <> []) /\
                         (listening s = false <-> elements s = []) /\
                         (isBound s = true <-> elements s <> [])).
  { intros s [HL HB]. rewrite HL, HB.
    destruct (elements s); simpl; repeat split; congruence. }
  destruct (reachable_invariants R) as (I1 & I2 & _).
  destruct (NE _ I1) as (N1 & N2 & N3).
  split; [exact N3|]. split; [apply I1|]. split.
  - intros pg ev W st'.
    assert (R' : reachable D st') by (apply reach_step; assumption).
    destruct (reachable_invariants R') as (I1' & _).
    destruct (NE _ I1') as (N1' & N2' & N3').
    split; [rewrite N2, N1'; reflexivity|].
    split; [rewrite N1, N2'; reflexivity|].
    intro E. apply N2' in E. destruct I1' as [HL _]. congruence.
  - intros pg el id _ E st'. subst st'. unfold inserted.
    apply N2 in E. destruct I1 as [HL HB]. rewrite <- HL, E. cbn [negb].
    destruct (updateActive_frame (set_registry st true true (elements st)))
      as (U1 & _ & U3 & _ & U5 & _).
    pose proof (@updateActive_pending (set_registry st true true (elements st)) I2)
      as U6.
    remember (updateActive D (set_registry st true true (elements st))) as st1.
    simpl in *. repeat split; assumption.
Qed.

(** ** The registry *)

Lemma has_delete (o : object entry) k : has (delete o k) k = false.
Proof.
  unfold has. induction o as [|[k' v'] o IH]; simpl; [reflexivity|].
  destruct (String.eqb k' k) eqn:E; [exact IH|]. simpl. rewrite E. exact IH.
Qed.

Lemma set_registry_same st :
  set_registry st (isBound st) (listening st) (elements st) = st.
Proof. destruct st; reflexivity. Qed.

Lemma unbind_absent st contentId :
  subscribed_iff_bound st ->
  has (elements st) contentId = false -> unbind contentId st = st.
Proof.
  intros [HL HB] H. unfold unbind. rewrite (delete_absent _ _ H).
  destruct (hasBoundElements (elements st)) eqn:E; simpl.
  - apply set_registry_same.
  - transitivity (set_registry st (isBound st) (listening st) (elements st));
      [|apply set_registry_same].
    rewrite HL, HB. rewrite ?E. reflexivity.
Qed.

(** C9.  In every reachable state the registry has at most one entry
    per identifier.  Binding an identifier that is registered replaces
    the pair stored under it, leaves the other entries, their order and
    their number unchanged; binding the same pair twice is binding it
    once; unbinding an identifier that is absent changes nothing, so
    unbinding twice is unbinding once. *)
Theorem registry_one_entry_per_id (st : state) :
  reachable D st ->
  NoDup (keys (elements st)) /\
  (forall pg el contentId,
      has (elements st) contentId = true ->
      let st' := inserted D pg el contentId st in
      get (elements st') contentId =
      Some {| link := el; content := getElementById pg contentId |} /\
      (forall k, k <> contentId ->
                 get (elements st') k = get (elements st) k) /\
      keys (elements st') = keys (elements st) /\
      length (elements st') = length (elements st)) /\
  (forall pg el contentId,
      inserted D pg el contentId (inserted D pg el contentId st) =
      inserted D pg el contentId st) /\
  (forall contentId,
      has (elements st) contentId = false -> unbind contentId st = st) /\
  (forall contentId,
      unbind contentId (unbind contentId st) = unbind contentId st).
Proof.
  intro R. destruct (reachable_invariants R) as (I1 & I2 & I3).
  split; [exact I3|]. split; [|split; [|split]].
  - intros pg el id H st'. subst st'.
    assert (B : isBound st = true).
    { destruct I1 as [_ HB]. rewrite HB.
      unfold has in H. destruct (elements st); [discriminate|reflexivity]. }
    unfold inserted. rewrite B. simpl.
    split; [apply get_set_same|].
    split; [intros k Hk; apply get_set_other; exact Hk|].
    unfold set. rewrite H.
    assert (K : keys (replace (elements st) id
                        {| link := el; content := getElementById pg id |}) =
                keys (elements st)) by apply keys_replace.
    split; [exact K|].
    unfold keys in K. apply (f_equal (@length _)) in K.
    rewrite !length_map in K. exact K.
  - intros pg el id.
    destruct (isBound st) eqn:B.
    + rewrite (inserted_bound pg el id st B).
      rewrite inserted_bound by reflexivity.
      cbn [set_registry elements listening]. rewrite set_twice. reflexivity.
    + rewrite (inserted_unbound pg el id st B).
      rewrite inserted_bound by reflexivity.
      remember (updateActive D (set_registry st true true (elements st))) as st1.
      cbn [set_registry elements listening]. rewrite set_twice. reflexivity.
  - intros id H. apply unbind_absent; assumption.
  - intro id. apply unbind_absent.
    + apply unbind_subscribed. exact I1.
    + unfold unbind. destruct (hasBoundElements _); simpl; apply has_delete.
Qed.

(** ** The timer callback *)

(** C10.  When some link is active and the evaluator returns none, the
    callback changes no class list and keeps [oldActive]: the class
    stays on the link that had it. *)
Theorem evaluator_none_keeps_active (pg : page) (st : state) (old : node) :
  oldActive st = Some old ->
  evaluate D pg (elements st) = Normal None ->
  let st' := callback D pg st in
  oldActive st' = Some old /\
  mutations st' = mutations st /\
  classList st' = classList st /\
  st' = record_run st (Normal None).
Proof.
  intros Hold Hev st'. subst st'. unfold callback. rewrite Hev. simpl.
  repeat split; auto.
Qed.

(** C4, on the source.  When the evaluator returns the link that is
    already active, the callback does not leave the class lists alone: it
    removes the class from that link and adds it again, one removal and
    one addition.  The registry is untouched, so the next evaluation on
    the same geometry returns the same link and does the same.  The claim
    has no removal and no addition there. *)
Theorem same_link_removes_and_adds (pg : page) (st : state) (l : node) :
  oldActive st = Some l ->
  evaluate D pg (elements st) = Normal (Some l) ->
  check_token (class_token (OPTS D)) = Normal tt ->
  let st' := callback D pg st in
  mutations st' =
  (mutations st ++ [ClassRemove l (class_token (OPTS D));
                    ClassAdd l (class_token (OPTS D))])%list /\
  oldActive st' = Some l /\
  evaluate D pg (elements st') = Normal (Some l).
Proof.
  intros Hold Hev Htok st'.
  destruct (callback_frame pg st) as (_ & E & _).
  fold st' in E. rewrite E. split; [|split; [|exact Hev]].
  - subst st'. unfold callback. rewrite Hev. simpl. rewrite Hold.
    unfold classList_remove, classList_add. rewrite Htok. simpl.
    rewrite <- app_assoc. reflexivity.
  - subst st'. unfold callback. rewrite Hev. simpl. rewrite Hold.
    unfold classList_remove, classList_add. rewrite Htok. reflexivity.
Qed.

(** ** The debounce *)

Lemma timeout_ms_nonneg (v : jsval) : 0 <= timeout_ms v.
Proof. unfold timeout_ms. destruct (ToNumber v); lia. Qed.

Lemma last_cons (a d : Z) (l : list Z) : last (a :: l) d = last l a.
Proof.
  revert a d. induction l as [|b l IH]; intros a d; [reflexivity|].
  change (last (a :: b :: l) d) with (last (b :: l) d).
  rewrite !IH. reflexivity.
Qed.

Lemma elapse_now pg t st : now st <= t -> now (elapse D pg t st) = t.
Proof.
  intro H. unfold elapse.
  destruct (t <? now st) eqn:E; [apply Z.ltb_lt in E; lia|reflexivity].
Qed.

Lemma fire_runs_old pg due :
  forall st, exists more, runs (fire D pg due st) = (runs st ++ more)%list.
Proof.
  induction due as [|[h t] due IH]; intro st; simpl.
  - exists []. rewrite app_nil_r. reflexivity.
  - destruct (IH (callback D pg (set_clock st t (pending st)))) as [more E].
    destruct (callback_frame pg (set_clock st t (pending st)))
      as (_ & _ & _ & _ & _ & _ & _ & C8).
    rewrite E, C8. simpl. rewrite <- app_assoc. eexists; reflexivity.
Qed.

(** Before the timer is due nothing happens but the passing of time. *)
Lemma elapse_before_due pg st h due t :
  pending st = [(h, due)] -> now st <= t -> t < due ->
  elapse D pg t st = set_clock st t (pending st).
Proof.
  intros P H1 H2. unfold elapse.
  destruct (t <? now st) eqn:E; [apply Z.ltb_lt in E; lia|].
  rewrite P. simpl.
  destruct (due <=? t) eqn:E'; [apply Z.leb_le in E'; lia|].
  reflexivity.
Qed.

(** Once the timer is due the callback runs, at the time it was due. *)
Lemma elapse_after_due pg st h due t :
  pending st = [(h, due)] -> now st <= due -> due <= t ->
  runs (elapse D pg t st) =
  (runs st ++ [(due, evaluate D pg (elements st))])%list /\
  pending (elapse D pg t st) = [].
Proof.
  intros P H1 H2. unfold elapse.
  destruct (t <? now st) eqn:E; [apply Z.ltb_lt in E; lia|].
  rewrite P. simpl.
  destruct (due <=? t) eqn:E'; [|apply Z.leb_gt in E'; lia].
  simpl.
  match goal with
  | |- context [callback D pg ?s] =>
      destruct (callback_frame pg s) as (_ & _ & _ & _ & _ & C6 & _ & C8)
  end.
  simpl in C6, C8. split; assumption.
Qed.

Lemma scroll_arms d st :
  timeout_ms (updateDelay (OPTS D)) = d ->
  listening st = true -> one_timer st ->
  armed d (runs st) (elements st) (now st) (scroll D st).
Proof.
  intros Hd HL HT. unfold scroll. rewrite HL.
  destruct (updateActive_frame st) as (_ & U2 & U3 & U4 & U5 & _ & _ & U8).
  unfold armed. rewrite U2, U3, U4, U5.
  repeat split; try assumption.
  exists (nextHandle st). split; [|exact U8].
  rewrite (updateActive_pending HT), Hd. reflexivity.
Qed.

Lemma notify_armed pg d R E t t' s :
  timeout_ms (updateDelay (OPTS D)) = d ->
  armed d R E t s -> t <= t' -> t' - t < d ->
  armed d R E t' (notify D pg s t').
Proof.
  intros Hd (HL & Hn & HR & HE & h & HP & HS) H1 H2.
  unfold notify.
  rewrite (@elapse_before_due pg s h (t + d) t' HP) by lia.
  pose proof (@scroll_arms d (set_clock s t' (pending s)) Hd HL) as A.
  simpl in A. rewrite HR, HE in A. apply A.
  right. exists h, (t + d). split; assumption.
Qed.

Lemma burst_armed pg d R E ts :
  timeout_ms (updateDelay (OPTS D)) = d ->
  forall t s,
    armed d R E t s -> spaced d t ts ->
    armed d R E (last ts t) (fold_left (notify D pg) ts s).
Proof.
  intro Hd. induction ts as [|t' ts IH]; intros t s A S; simpl; [exact A|].
  destruct S as [[H1 H2] S].
  change (match ts with [] => t' | _ :: _ => last ts t end) with (last (t' :: ts) t).
  rewrite last_cons. apply IH; [|exact S].
  apply notify_armed with (t := t); assumption.
Qed.

(** C8, as the source has it.  Let [d] be the delay [setTimeout] derives
    from [updateDelay] ([timeout_ms]: the integer part, wrapped to a
    signed 32-bit integer, a negative value counting as 0).  A burst of
    scroll notifications, each less than [d] after the one before,
    arriving while the directive listens: when the burst ends one
    callback is pending, due [d] after the last notification; no
    evaluation runs before that time; exactly one runs at that time.  In
    every state reached by binds of identifiers other than [__proto__],
    unbinds, notifications and the passing of time, at most one callback
    is pending, and a notification leaves only the callback it
    schedules. *)
Theorem debounce_one_evaluation
        (pg : page) (st : state) (d t1 : Z) (ts : list Z) (T : Z) :
  reachable D st ->
  listening st = true ->
  timeout_ms (updateDelay (OPTS D)) = d ->
  now st <= t1 ->
  spaced d t1 ts ->
  last ts t1 + d <= T ->
  let st1 := elapse D pg t1 st in
  let stN := fold_left (notify D pg) ts (scroll D st1) in
  (exists h, pending stN = [(h, last ts t1 + d)]) /\
  runs stN = runs st1 /\
  (forall T', last ts t1 <= T' < last ts t1 + d ->
              runs (elapse D pg T' stN) = runs st1) /\
  runs (elapse D pg T stN) =
  (runs st1 ++ [(last ts t1 + d, evaluate D pg (elements st))])%list /\
  pending (elapse D pg T stN) = [] /\
  (forall s, reachable D s ->
             (length (pending s) <= 1)%nat /\
             (listening s = true ->
              pending (scroll D s) = [(nextHandle s, now s + d)])).
Proof.
  intros R HL Hd Hnow S HT st1 stN.
  pose proof (timeout_ms_nonneg (updateDelay (OPTS D))) as Hd0. rewrite Hd in Hd0.
  assert (R1 : reachable D st1)
    by (apply (reach_step pg (Elapse t1) R); exact I).
  destruct (reachable_invariants R1) as (_ & T1 & _).
  destruct (elapse_frame pg t1 st) as (_ & E2 & _ & E4 & _).
  assert (A1 : armed d (runs st1) (elements st) t1 (scroll D st1)).
  { pose proof (@scroll_arms d st1 Hd) as A.
    replace (elements st1) with (elements st) in A by (symmetry; exact E2).
    replace (now st1) with t1 in A
      by (symmetry; apply elapse_now; exact Hnow).
    apply A; [unfold st1; congruence | exact T1]. }
  pose proof (@burst_armed pg d (runs st1) (elements st) ts Hd t1 _ A1 S) as AN.
  fold stN in AN.
  destruct AN as (NL & Nn & NR & NE & h & NP & NS).
  split; [exists h; exact NP|]. split; [exact NR|]. split; [|split; [|split]].
  - intros T' [H1 H2].
    rewrite (@elapse_before_due pg stN h (last ts t1 + d) T' NP) by lia.
    exact NR.
  - destruct (@elapse_after_due pg stN h (last ts t1 + d) T NP) as [X _];
      [lia|lia|].
    rewrite X, NR, NE. reflexivity.
  - destruct (@elapse_after_due pg stN h (last ts t1 + d) T NP) as [_ X];
      [lia|lia|exact X].
  - intros s Rs. destruct (reachable_invariants Rs) as (_ & Ts & _). split.
    + destruct Ts as [E | (h' & due & E & _)]; rewrite E; simpl; lia.
    + intro Ls. unfold scroll. rewrite Ls.
      rewrite (updateActive_pending Ts), Hd. reflexivity.
Qed.

End DirectiveProofs.

(** ** Concrete runs *)

Lemma activeView_default : activeView no_options = Normal default_directive.
Proof. reflexivity. Qed.

Lemma activeView_complete :
  activeView (only_method (VStr "complete")) = Normal complete_directive.
Proof. reflexivity. Qed.

(** The delay the timer gets for some accepted values of [updateDelay]:
    a fraction loses its fractional part, [2^31] wraps to a negative
    number and counts as 0, and a string that only starts with digits
    converts to [NaN] and counts as 0. *)
Lemma timeout_ms_samples :
  timeout_ms (VNum (int 50)) = 50 /\
  timeout_ms (VNum (ratio 3 2)) = 1 /\
  timeout_ms (VNum (int 2147483648)) = 0 /\
  timeout_ms (VStr "5px") = 0.
Proof. repeat split; vm_compute; reflexivity. Qed.

(** A registry of one visible pair, evaluated twice through the timer
    with the same geometry: both evaluations return the same link, and the
    second one removes the class from it and adds it again. *)
Lemma second_evaluation_mutates :
  elements evaluated_twice = elements evaluated_once /\
  runs evaluated_once = [(50, Normal (Some 1%nat))] /\
  oldActive evaluated_once = Some 1%nat /\
  runs evaluated_twice = [(50, Normal (Some 1%nat)); (100, Normal (Some 1%nat))] /\
  mutations evaluated_once = [ClassAdd 1%nat "active-view-link"] /\
  mutations evaluated_twice =
  (mutations evaluated_once ++
   [ClassRemove 1%nat "active-view-link"; ClassAdd 1%nat "active-view-link"])%list.
Proof. vm_compute. repeat split; reflexivity. Qed.

(** C3 at identifiers [b] and [1].  Both pairs lie wholly inside the
    viewport and the link bound first is 1, bound under [b]; the registry
    enumerates the array-index key [1] first, and the complete policy
    returns link 2. *)
Theorem completelyVisible_prefers_index_key :
  keys (elements b_then_1) = ["1"; "b"] /\
  get (elements b_then_1) "b" = Some {| link := 1%nat; content := Some 20%nat |} /\
  get (elements b_then_1) "1" = Some {| link := 2%nat; content := Some 21%nat |} /\
  complete_ok (int 800) (getBoundingClientRect two_sections 20%nat) /\
  complete_ok (int 800) (getBoundingClientRect two_sections 21%nat) /\
  runs b_then_1 = [(50, Normal (Some 2%nat))] /\
  oldActive b_then_1 = Some 2%nat.
Proof.
  split; [reflexivity|]. split; [reflexivity|]. split; [reflexivity|].
  split; [split; vm_compute; reflexivity|].
  split; [split; vm_compute; reflexivity|].
  split; reflexivity.
Qed.

(** The first bind runs no evaluation: it leaves one callback pending,
    due 50 ms later.  The claim has an evaluation at the bind itself. *)
Lemma first_bind_runs_no_evaluation :
  fresh boot /\
  runs bound_once = [] /\
  pending bound_once = [(1%nat, 50)] /\
  ~ (exists r, runs bound_once = (runs boot ++ [r])%list).
Proof.
  split; [repeat split|]. split; [reflexivity|]. split; [reflexivity|].
  intros [r H]. vm_compute in H. discriminate.
Qed.

Lemma own_key_a : own_key "a".
Proof. unfold own_key. discriminate. Defined.

Lemma fresh_boot : fresh boot.
Proof. repeat split. Defined.

Lemma reachable_bound_once : reachable default_directive bound_once.
Proof.
  exact (@reach_step default_directive one_section (Inserted 1%nat "a") boot
                     (@reach_fresh default_directive boot fresh_boot) own_key_a).
Defined.

Lemma reachable_evaluated_once : reachable default_directive evaluated_once.
Proof.
  exact (@reach_step default_directive one_section (Elapse 50) bound_once
                     reachable_bound_once I).
Defined.

Lemma subscription_follows_registry_witness :
  reachable default_directive bound_once /\
  (isBound bound_once = true <-> elements bound_once <> []) /\
  listening bound_once = isBound bound_once.
Proof.
  split; [exact reachable_bound_once|].
  pose proof (@subscription_follows_registry default_directive bound_once
                reachable_bound_once) as H.
  split; [exact (proj1 H) | exact (proj1 (proj2 H))].
Defined.

Lemma registry_one_entry_per_id_witness :
  reachable default_directive evaluated_once /\
  has (elements evaluated_once) "a" = true /\
  NoDup (keys (elements evaluated_once)) /\
  length (elements (inserted default_directive one_section 7%nat "a" evaluated_once)) =
  length (elements evaluated_once).
Proof.
  split; [exact reachable_evaluated_once|]. split; [reflexivity|].
  pose proof (@registry_one_entry_per_id default_directive evaluated_once
                reachable_evaluated_once) as H.
  split; [exact (proj1 H)|].
  exact (proj2 (proj2 (proj2 (proj1 (proj2 H) one_section 7%nat "a" eq_refl)))).
Defined.

Lemma same_link_removes_and_adds_witness :
  oldActive evaluated_once = Some 1%nat /\
  evaluate default_directive one_section (elements evaluated_once) =
  Normal (Some 1%nat) /\
  check_token (class_token (OPTS default_directive)) = Normal tt /\
  mutations (callback default_directive one_section evaluated_once) =
  [ClassAdd 1%nat "active-view-link";
   ClassRemove 1%nat "active-view-link"; ClassAdd 1%nat "active-view-link"].
Proof.
  split; [reflexivity|]. split; [reflexivity|]. split; [reflexivity|].
  exact (proj1 (@same_link_removes_and_adds default_directive one_section
                  evaluated_once 1%nat eq_refl eq_refl eq_refl)).
Defined.

Lemma evaluator_none_keeps_active_witness :
  oldActive evaluated_once = Some 1%nat /\
  evaluate default_directive scrolled_away (elements evaluated_once) = Normal None /\
  oldActive (callback default_directive scrolled_away evaluated_once) = Some 1%nat /\
  mutations (callback default_directive scrolled_away evaluated_once) =
  mutations evaluated_once.
Proof.
  split; [reflexivity|]. split; [reflexivity|].
  pose proof (@evaluator_none_keeps_active default_directive scrolled_away
                evaluated_once 1%nat eq_refl eq_refl) as H.
  split; [exact (proj1 H) | exact (proj1 (proj2 H))].
Defined.

Lemma debounce_one_evaluation_witness :
  reachable default_directive bound_once /\
  listening bound_once = true /\
  timeout_ms (updateDelay (OPTS default_directive)) = 50 /\
  now bound_once <= 10 /\
  spaced 50 10 [30; 60] /\
  last [30; 60] 10 + 50 <= 200 /\
  runs (elapse default_directive one_section 200
          (fold_left (notify default_directive one_section) [30; 60]
             (scroll default_directive
                (elapse default_directive one_section 10 bound_once)))) =
  (runs (elapse default_directive one_section 10 bound_once) ++
   [(last [30; 60] 10 + 50,
     evaluate default_directive one_section (elements bound_once))])%list.
Proof.
  assert (S : spaced 50 10 [30; 60]) by (simpl; lia).
  assert (N : now bound_once <= 10) by (simpl; lia).
  assert (T : last [30; 60] 10 + 50 <= 200) by (simpl; lia).
  split; [exact reachable_bound_once|]. split; [reflexivity|].
  split; [reflexivity|]. split; [exact N|]. split; [exact S|]. split; [exact T|].
  exact (proj1 (proj2 (proj2 (proj2
           (@debounce_one_evaluation default_directive one_section bound_once
              50 10 [30; 60] 200 reachable_bound_once eq_refl eq_refl N S T))))).
Defined.

(** Two bursts the claim decides otherwise.  [updateDelay] 1.5 gives the
    timer a delay of 1: notifications at 10 and 11, less than 1.5 apart,
    are each followed by an evaluation, at 11 and at 12.  [updateDelay]
    [2^31] gives the timer a delay of 0: notifications at 10 and 15 are
    each followed by an evaluation at once. *)
Lemma burst_within_updateDelay_evaluates_twice :
  (activeView (only_updateDelay (VNum (ratio 3 2))) =
   Normal fractional_delay_directive /\
   timeout_ms (updateDelay (OPTS fractional_delay_directive)) = 1%Z /\
   jlt (int (11 - 10)) (ToNumber (updateDelay (OPTS fractional_delay_directive))) = true /\
   run_times
     (elapse fractional_delay_directive one_section 100
        (fold_left (notify fractional_delay_directive one_section) [11%Z]
           (scroll fractional_delay_directive
              (elapse fractional_delay_directive one_section 10
                 (inserted fractional_delay_directive one_section 1%nat "a" boot))))) =
   [1%Z; 11%Z; 12%Z]) /\
  (activeView (only_updateDelay (VNum (int 2147483648))) =
   Normal wrapping_delay_directive /\
   timeout_ms (updateDelay (OPTS wrapping_delay_directive)) = 0%Z /\
   jlt (int (15 - 10)) (ToNumber (updateDelay (OPTS wrapping_delay_directive))) = true /\
   run_times
     (elapse wrapping_delay_directive one_section 100
        (fold_left (notify wrapping_delay_directive one_section) [15%Z]
           (scroll wrapping_delay_directive
              (elapse wrapping_delay_directive one_section 10
                 (inserted wrapping_delay_directive one_section 1%nat "a" boot))))) =
   [0%Z; 10%Z; 15%Z]).
Proof.
  split.
  - split; [reflexivity|]. split; [vm_compute; reflexivity|].
    split; vm_compute; reflexivity.
  - split; [reflexivity|]. split; [vm_compute; reflexivity|].
    split; vm_compute; reflexivity.
Qed.

End DirectiveFacts.

(* ================================================================== *)
(** * Class marks *)
(* ================================================================== *)

Module ClassFacts.

Import JS Host ActiveView Props.
Local Open Scope string_scope.

Lemma token_add_In (cl : list string) (t : string) : In t (token_add cl t).
Proof.
  unfold token_add. destruct (existsb (String.eqb t) cl) eqn:E.
  - apply existsb_exists in E. destruct E as (x & Hx & Heq).
    apply String.eqb_eq in Heq. subst. exact Hx.
  - apply in_or_app. right. left. reflexivity.
Qed.

Lemma token_remove_not_In (cl : list string) (t : string) :
  ~ In t (token_remove cl t).
Proof.
  unfold token_remove. intro H. apply filter_In in H. destruct H as [_ H].
  rewrite String.eqb_refl in H. discriminate.
Qed.

Section Marks.
Variable D : directive.

Let tok : string := class_token (OPTS D).

(** When the evaluator returns a link and the class name is a valid
    token, the callback makes that link the active one: it carries the
    class afterwards, a different link that was active has lost it, every
    other class list is untouched, and the calls made are the removal on
    the old link, if there was one, followed by the addition. *)
Theorem callback_moves_class (pg : page) (st : state) (l : node) :
  evaluate D pg (elements st) = Normal (Some l) ->
  check_token tok = Normal tt ->
  let st' := callback D pg st in
  oldActive st' = Some l /\
  In tok (classList st' l) /\
  (forall old, oldActive st = Some old -> old <> l ->
               ~ In tok (classList st' old)) /\
  (forall n, n <> l -> oldActive st <> Some n ->
             classList st' n = classList st n) /\
  mutations st' =
  (mutations st ++
   match oldActive st with
   | Some old => [ClassRemove old tok]
   | None => []
   end ++ [ClassAdd l tok])%list.
Proof.
  intros Hev Htok st'. subst st'. unfold callback. rewrite Hev.
  cbn [record_run oldActive].
  unfold classList_remove, classList_add. fold tok.
  destruct (oldActive st) as [old|] eqn:Ho; rewrite !Htok; cbn.
  - split; [reflexivity|]. split; [rewrite Nat.eqb_refl; apply token_add_In|].
    split; [|split].
    + intros old' E Hne. injection E as <-.
      destruct (Nat.eqb_spec old l) as [->|_]; [congruence|].
      rewrite Nat.eqb_refl. apply token_remove_not_In.
    + intros n Hl Hn.
      destruct (Nat.eqb_spec n l) as [->|_]; [congruence|].
      destruct (Nat.eqb_spec n old) as [->|_]; [congruence|reflexivity].
    + rewrite <- app_assoc. reflexivity.
  - split; [reflexivity|]. split; [rewrite Nat.eqb_refl; apply token_add_In|].
    split; [|split].
    + intros old' E. discriminate.
    + intros n Hl _.
      destruct (Nat.eqb_spec n l) as [->|_]; [congruence|reflexivity].
    + reflexivity.
Qed.

Lemma callback_exclusive (pg : page) (st : state) :
  exclusive tok st -> exclusive tok (callback D pg st).
Proof.
  intro H. unfold callback.
  destruct (evaluate D pg (elements st)) as [[l|]|e]; try exact H.
  cbn [record_run oldActive].
  unfold classList_remove, classList_add. fold tok.
  destruct (check_token tok) as [[]|e];
    [|destruct (oldActive st); exact H].
  destruct (oldActive st) as [old|] eqn:Ho; cbn; intro n; cbn.
  - destruct (Nat.eqb_spec n l) as [->|Hn].
    + split; [reflexivity|]. intros _. apply token_add_In.
    + destruct (Nat.eqb_spec n old) as [->|Hn'].
      * split; [intro X; exfalso; exact (token_remove_not_In _ _ X)|].
        intro E. congruence.
      * unfold exclusive in H. rewrite (H n), Ho. split; congruence.
  - destruct (Nat.eqb_spec n l) as [->|Hn].
    + split; [reflexivity|]. intros _. apply token_add_In.
    + unfold exclusive in H. rewrite (H n), Ho. split; congruence.
Qed.

Lemma fire_exclusive (pg : page) (due : list (handle * Z)) :
  forall st, exclusive tok st -> exclusive tok (fire D pg due st).
Proof.
  induction due as [|[h t] due IH]; intros st H; simpl; [exact H|].
  apply IH. apply callback_exclusive. exact H.
Qed.

Lemma step_exclusive (pg : page) (ev : event) (st : state) :
  exclusive tok st -> exclusive tok (step D pg ev st).
Proof.
  intro H. destruct ev as [el id|el id| |t]; simpl.
  - unfold inserted, updateActive, setTimeout, clearTimeout.
    destruct (isBound st); simpl; [exact H|].
    destruct (scrollTimeout st); exact H.
  - unfold unbind. destruct (hasBoundElements _); exact H.
  - unfold scroll, updateActive, setTimeout, clearTimeout.
    destruct (listening st); [|exact H].
    destruct (scrollTimeout st); exact H.
  - unfold elapse. destruct (Z.ltb t (now st)); [exact H|].
    match goal with
    | |- exclusive tok (set_clock (fire D pg ?due ?s) _ _) =>
        exact (@fire_exclusive pg due s H)
    end.
Qed.

(** Along every run the links that carry the class are exactly the active
    one, provided that was so at the start: at most one link is marked at
    any time, and it is the one [oldActive] holds. *)
Theorem one_link_marked (tr : list (page * event)) (st : state) :
  exclusive tok st -> exclusive tok (run D tr st).
Proof.
  revert st. induction tr as [|[pg ev] tr IH]; intros st H; [exact H|].
  apply IH. apply step_exclusive. exact H.
Qed.

Lemma step_never_marks (pg : page) (ev : event) (st : state) (e : exn) :
  check_token tok = Throw e ->
  oldActive st = None ->
  let st' := step D pg ev st in
  oldActive st' = None /\ mutations st' = mutations st /\
  classList st' = classList st.
Proof.
  intros Htok Ho.
  assert (C : forall pg s, oldActive s = None ->
                           oldActive (callback D pg s) = None /\
                           mutations (callback D pg s) = mutations s /\
                           classList (callback D pg s) = classList s).
  { intros pg' s Hs. unfold callback.
    destruct (evaluate D pg' (elements s)) as [[l|]|e']; cbn; auto.
    rewrite Hs. unfold classList_add. fold tok. rewrite Htok. cbn. auto. }
  assert (F : forall pg due s, oldActive s = None ->
                               oldActive (fire D pg due s) = None /\
                               mutations (fire D pg due s) = mutations s /\
                               classList (fire D pg due s) = classList s).
  { intros pg' due. induction due as [|[h t] due IH]; intros s Hs; simpl; auto.
    destruct (C pg' (set_clock s t (pending s)) Hs) as (C1 & C2 & C3).
    destruct (IH _ C1) as (I1 & I2 & I3).
    split; [exact I1|].
    split; [rewrite I2, C2 | rewrite I3, C3]; reflexivity. }
  destruct ev as [el id|el id| |t]; simpl.
  - unfold inserted, updateActive, setTimeout, clearTimeout.
    destruct (isBound st); simpl; auto.
    destruct (scrollTimeout st); simpl; auto.
  - unfold unbind. destruct (hasBoundElements _); simpl; auto.
  - unfold scroll, updateActive, setTimeout, clearTimeout.
    destruct (listening st); auto.
    destruct (scrollTimeout st); simpl; auto.
  - unfold elapse. destruct (Z.ltb t (now st)); auto.
    match goal with
    | |- context [fire D pg ?due ?s] => exact (F pg due s Ho)
    end.
Qed.

(** When the class name is not a valid class token - the empty string,
    which [validateOpts] accepts, or a string with white space - no run
    ever marks a link: [classList.add] throws inside the callback, so
    [oldActive] stays unset and no class list changes. *)
Theorem invalid_class_never_marks
        (tr : list (page * event)) (st : state) (e : exn) :
  check_token tok = Throw e ->
  oldActive st = None ->
  oldActive (run D tr st) = None /\
  mutations (run D tr st) = mutations st /\
  classList (run D tr st) = classList st.
Proof.
  intro Htok. revert st. induction tr as [|[pg ev] tr IH]; intros st Ho; simpl.
  - auto.
  - destruct (@step_never_marks pg ev st e Htok Ho) as (S1 & S2 & S3).
    destruct (IH _ S1) as (I1 & I2 & I3).
    split; [exact I1|]. split; congruence.
Qed.

End Marks.

Lemma callback_moves_class_witness :
  evaluate default_directive scrolled_to_c (elements two_bound) =
  Normal (Some 2%nat) /\
  check_token (class_token (OPTS default_directive)) = Normal tt /\
  oldActive two_bound = Some 1%nat /\
  oldActive (callback default_directive scrolled_to_c two_bound) = Some 2%nat /\
  ~ In "active-view-link"
       (classList (callback default_directive scrolled_to_c two_bound) 1%nat).
Proof.
  split; [reflexivity|]. split; [reflexivity|]. split; [reflexivity|].
  pose proof (@callback_moves_class default_directive scrolled_to_c two_bound
                2%nat eq_refl eq_refl) as H.
  split; [exact (proj1 H)|].
  apply (proj1 (proj2 (proj2 H)) 1%nat eq_refl). discriminate.
Defined.

Lemma exclusive_boot : exclusive "active-view-link" boot.
Proof. intro n. simpl. split; [intros []|discriminate]. Defined.

Lemma one_link_marked_witness :
  exclusive (class_token (OPTS default_directive)) boot /\
  exclusive (class_token (OPTS default_directive))
            (run default_directive
                 [(two_visible, Inserted 1%nat "a");
                  (two_visible, Inserted 2%nat "c");
                  (two_visible, Elapse 50%Z);
                  (scrolled_to_c, Scroll);
                  (scrolled_to_c, Elapse 100%Z)] boot).
Proof.
  split; [exact exclusive_boot|].
  apply one_link_marked. exact exclusive_boot.
Defined.

Lemma invalid_class_never_marks_witness :
  activeView (only_className (VStr EmptyString)) = Normal empty_class_directive /\
  check_token (class_token (OPTS empty_class_directive)) = Throw SyntaxError /\
  oldActive boot = None /\
  oldActive (run empty_class_directive
                 [(one_section, Inserted 1%nat "a"); (one_section, Elapse 50%Z)]
                 boot) = None.
Proof.
  split; [reflexivity|]. split; [reflexivity|]. split; [reflexivity|].
  exact (proj1 (@invalid_class_never_marks empty_class_directive
                  [(one_section, Inserted 1%nat "a"); (one_section, Elapse 50%Z)]
                  boot SyntaxError eq_refl eq_refl)).
Defined.

End ClassFacts.

(* ================================================================== *)
(** * More on the registry *)
(* ================================================================== *)

Module RegistryOrder.

Import JS Host ActiveView Props RegistryFacts DetectionFacts DirectiveFacts.
Local Open Scope string_scope.

Section ObjectOrder.
Variable A : Type.
Implicit Types (o : object A) (k : string) (v : A).

Lemma not_in_has_false o k : ~ In k (keys o) -> has o k = false.
Proof.
  unfold has. induction o as [|[k' v'] o IH]; simpl; [reflexivity|].
  intro H. destruct (String.eqb k' k) eqn:E.
  - apply String.eqb_eq in E. exfalso. apply H. left. exact E.
  - apply IH. intro Hin. apply H. right. exact Hin.
Qed.

Lemma delete_app o o' k : delete (o ++ o')%list k = (delete o k ++ delete o' k)%list.
Proof.
  induction o as [|[k' v'] o IH]; simpl; [reflexivity|].
  destruct (String.eqb k' k); simpl; rewrite IH; reflexivity.
Qed.

Lemma delete_insert_index o i k v :
  has o k = false -> delete (insert_index o i k v) k = o.
Proof.
  unfold has. induction o as [|[k0 v0] o IH]; simpl.
  - rewrite String.eqb_refl. reflexivity.
  - destruct (String.eqb k0 k) eqn:E; [discriminate|]. intro H.
    assert (D0 : delete ((k0, v0) :: o) k = (k0, v0) :: o).
    { apply delete_absent. unfold has. simpl. rewrite E. exact H. }
    destruct (array_index k0) as [j|]; [destruct (j <? i)%Z|]; simpl;
      rewrite ?String.eqb_refl, ?E.
    + rewrite (IH H). reflexivity.
    + simpl in D0. rewrite E in D0. exact D0.
    + simpl in D0. rewrite E in D0. exact D0.
Qed.

(** Storing a new key and deleting it again gives the object back. *)
Lemma delete_set_absent o k v : has o k = false -> delete (set o k v) k = o.
Proof.
  intro H. unfold set. rewrite H. destruct (array_index k).
  - apply delete_insert_index. exact H.
  - rewrite delete_app, (delete_absent _ _ H). simpl.
    rewrite String.eqb_refl. apply app_nil_r.
Qed.

Lemma enumerated_weaken (lo lo' : Z) (ks : list string) :
  (lo' <= lo)%Z -> enumerated lo ks -> enumerated lo' ks.
Proof.
  intro Hle. destruct ks as [|k ks]; simpl; [trivial|].
  destruct (array_index k); [|trivial]. intros [H1 H2]. split; [lia|exact H2].
Qed.

Lemma names_enumerated (lo : Z) (ks : list string) :
  Forall (fun k => array_index k = None) ks -> enumerated lo ks.
Proof.
  intro H. destruct H as [|k ks Hk Hks]; simpl; [trivial|].
  rewrite Hk. exact Hks.
Qed.

Lemma enumerated_insert_index o i k v :
  array_index k = Some i ->
  forall lo, (lo <= i)%Z -> enumerated lo (keys o) ->
             enumerated lo (keys (insert_index o i k v)).
Proof.
  intro Hk. induction o as [|[k0 v0] o IH]; intros lo Hlo; simpl.
  - rewrite Hk. auto.
  - destruct (array_index k0) as [j|] eqn:E0.
    + intros [H1 H2]. destruct (j <? i)%Z eqn:Lt; simpl.
      * rewrite E0. split; [exact H1|].
        apply IH; [apply Z.ltb_lt in Lt; lia|exact H2].
      * rewrite Hk. split; [exact Hlo|]. simpl. rewrite E0.
        split; [apply Z.ltb_ge in Lt; exact Lt|exact H2].
    + intro H. simpl. rewrite Hk. split; [exact Hlo|]. simpl. rewrite E0. exact H.
Qed.

Lemma enumerated_append o k v :
  array_index k = None ->
  forall lo, enumerated lo (keys o) -> enumerated lo (keys (o ++ [(k, v)])%list).
Proof.
  intro Hk.
  assert (N : forall o', Forall (fun k' => array_index k' = None) (keys o') ->
                         Forall (fun k' => array_index k' = None)
                                (keys (o' ++ [(k, v)])%list)).
  { intros o' H. unfold keys. rewrite map_app. apply Forall_app. split; [exact H|].
    constructor; [exact Hk|constructor]. }
  induction o as [|[k0 v0] o IH]; intros lo; simpl.
  - rewrite Hk. constructor.
  - destruct (array_index k0); [|apply N].
    intros [H1 H2]. split; [exact H1|apply IH; exact H2].
Qed.

Lemma enumerated_delete o k :
  forall lo, enumerated lo (keys o) -> enumerated lo (keys (delete o k)).
Proof.
  assert (N : forall o', Forall (fun k' => array_index k' = None) (keys o') ->
                         Forall (fun k' => array_index k' = None)
                                (keys (delete o' k))).
  { intros o' H. rewrite keys_delete. apply Forall_forall. intros x Hx.
    apply filter_In in Hx. rewrite Forall_forall in H. apply H. tauto. }
  induction o as [|[k0 v0] o IH]; intros lo; simpl; [trivial|].
  destruct (String.eqb k0 k); simpl.
  - destruct (array_index k0) as [j|].
    + intros [H1 H2]. apply enumerated_weaken with (lo := j); [exact H1|].
      apply IH. exact H2.
    + intro H. apply names_enumerated. apply N. exact H.
  - destruct (array_index k0) as [j|].
    + intros [H1 H2]. split; [exact H1|apply IH; exact H2].
    + apply N.
Qed.

Lemma enumerated_set o k v :
  (exists lo, enumerated lo (keys o)) ->
  exists lo, enumerated lo (keys (set o k v)).
Proof.
  intros [lo H]. unfold set. destruct (has o k).
  - exists lo. rewrite keys_replace. exact H.
  - destruct (array_index k) as [i|] eqn:Hk.
    + exists (Z.min lo i). apply enumerated_insert_index; [exact Hk|lia|].
      apply enumerated_weaken with (lo := lo); [lia|exact H].
    + exists lo. apply enumerated_append; assumption.
Qed.

End ObjectOrder.

Section RegistryOrderProofs.
Variable D : directive.

Lemma elements_inserted pg el contentId st :
  elements (inserted D pg el contentId st) =
  set (elements st) contentId
      {| link := el; content := getElementById pg contentId |}.
Proof.
  destruct (isBound st) eqn:B.
  - rewrite (inserted_bound D pg el contentId st B). reflexivity.
  - rewrite (inserted_unbound D pg el contentId st B). reflexivity.
Qed.

(** In every reachable state [for ... in] visits the registry with the
    identifiers that are canonical array indices first, their values
    never decreasing, and all other identifiers after them, whatever the
    order of the binds was. *)
Theorem registry_enumeration (st : state) :
  reachable D st -> exists lo, enumerated lo (keys (elements st)).
Proof.
  induction 1 as [st (_ & E & _) | pg ev st _ IH _].
  - exists 0%Z. rewrite E. exact I.
  - destruct ev as [el id|el id| |t]; cbn [step].
    + rewrite elements_inserted. apply enumerated_set. exact IH.
    + destruct IH as [lo IH]. exists lo. unfold unbind.
      destruct (hasBoundElements _); simpl; apply enumerated_delete; exact IH.
    + unfold scroll. destruct (listening st); [|exact IH].
      destruct (updateActive_frame D st) as (_ & U2 & _). rewrite U2. exact IH.
    + destruct (elapse_frame D pg t st) as (_ & E2 & _). rewrite E2. exact IH.
Qed.

(** Binding an identifier that is not registered, and that the registry
    stores as an own property, and unbinding it again restores the
    registry, the flag, the listener, the active link and every class
    list; the evaluations run so far are the same.  When the registry was
    not empty the whole state is restored; when it was, the only trace
    left is the timer the bind armed. *)
Theorem bind_then_unbind_restores (pg : page) (el : node) (contentId : string)
        (st : state) :
  reachable D st ->
  own_key contentId ->
  has (elements st) contentId = false ->
  let st' := unbind contentId (inserted D pg el contentId st) in
  elements st' = elements st /\
  isBound st' = isBound st /\
  listening st' = listening st /\
  oldActive st' = oldActive st /\
  classList st' = classList st /\
  mutations st' = mutations st /\
  runs st' = runs st /\
  (elements st <> [] -> st' = st).
Proof.
  intros R _ H st'. destruct (reachable_invariants R) as ([HL HB] & _ & _).
  assert (E : delete (set (elements st) contentId
                          {| link := el; content := getElementById pg contentId |})
                     contentId = elements st)
    by (apply delete_set_absent; exact H).
  destruct (isBound st) eqn:B.
  - subst st'. rewrite (inserted_bound D pg el contentId st B).
    unfold unbind. cbn [set_registry elements isBound listening]. rewrite E.
    rewrite <- HB. cbn.
    repeat split; try reflexivity.
    intros _. clear - B. destruct st; simpl in *; subst; reflexivity.
  - subst st'. rewrite (inserted_unbound D pg el contentId st B).
    assert (Hempty : elements st = []).
    { destruct (elements st); [reflexivity|discriminate]. }
    unfold unbind. cbn [set_registry elements isBound listening]. rewrite E, <- HB.
    destruct (updateActive_frame D (set_registry st true true (elements st)))
      as (_ & _ & _ & _ & U5 & U6 & U7 & _).
    assert (U9 : classList (updateActive D (set_registry st true true (elements st)))
                 = classList st).
    { unfold updateActive, setTimeout, clearTimeout.
      destruct (scrollTimeout (set_registry st true true (elements st))); reflexivity. }
    cbn [negb hasBoundElements set_registry elements isBound listening oldActive
              classList mutations runs].
    split; [reflexivity|]. split; [reflexivity|]. split; [congruence|].
    split; [exact U6|]. split; [exact U9|]. split; [exact U7|].
    split; [exact U5|]. intro Hne. congruence.
Qed.

Lemma bind_all_elements pg bs :
  forall st,
    elements (bind_all D pg bs st) =
    fold_left (fun o b => set o (snd b) (snd (entry_of pg b))) bs (elements st).
Proof.
  induction bs as [|[el id] bs IH]; intro st; [reflexivity|].
  unfold bind_all in *. simpl. rewrite IH, elements_inserted. reflexivity.
Qed.

Lemma fold_set_appends pg bs :
  forall o : object entry,
    NoDup (map snd bs) ->
    Forall (fun b => array_index (snd b) = None) bs ->
    (forall b, In b bs -> ~ In (snd b) (keys o)) ->
    fold_left (fun o b => set o (snd b) (snd (entry_of pg b))) bs o =
    (o ++ map (entry_of pg) bs)%list.
Proof.
  induction bs as [|[el id] bs IH]; intros o Hd Hn Hf; simpl.
  - rewrite app_nil_r. reflexivity.
  - inversion Hd as [|? ? Hni Hd']; subst. inversion Hn as [|? ? Hid Hn']; subst.
    simpl in Hid.
    assert (S : set o id {| link := el; content := getElementById pg id |} =
                (o ++ [(id, {| link := el; content := getElementById pg id |})])%list).
    { unfold set. rewrite (not_in_has_false o id), Hid; [reflexivity|].
      apply (Hf (el, id)). left. reflexivity. }
    rewrite S, IH; [rewrite <- app_assoc; reflexivity|exact Hd'|exact Hn'|].
    intros b Hb. unfold keys. rewrite map_app, in_app_iff. simpl.
    intros [Hin|[Heq|[]]].
    + apply (Hf b); [right; exact Hb|exact Hin].
    + apply Hni. rewrite Heq. apply in_map. exact Hb.
Qed.

(** Distinct identifiers that are neither canonical array indices nor
    [__proto__], bound into an empty registry, are enumerated in the
    order they were bound. *)
Lemma bind_all_in_order (pg : page) (bs : list (node * string)) (st : state) :
  elements st = [] ->
  NoDup (map snd bs) ->
  Forall (fun b => array_index (snd b) = None) bs ->
  Forall (fun b => own_key (snd b)) bs ->
  elements (bind_all D pg bs st) = map (entry_of pg) bs.
Proof.
  intros He Hd Hn _.
  rewrite bind_all_elements, He.
  rewrite (@fold_set_appends pg bs [] Hd Hn); [reflexivity|].
  intros b _ [].
Qed.

(** Distinct identifiers that are neither canonical array indices nor
    [__proto__], bound into an empty registry, are enumerated in the
    order they were bound; the complete policy then returns the link
    bound first among the pairs that lie wholly inside the viewport, as
    its documentation says. *)
Theorem binds_keep_bind_order (pg : page) (bs : list (node * string)) (st : state) :
  elements st = [] ->
  NoDup (map snd bs) ->
  Forall (fun b => array_index (snd b) = None) bs ->
  Forall (fun b => own_key (snd b)) bs ->
  elements (bind_all D pg bs st) = map (entry_of pg) bs /\
  (forall pg' wHeight l,
      completelyVisible pg' (elements (bind_all D pg bs st)) wHeight =
      Normal (Some l) <->
      first_match pg' (complete_ok wHeight) (map (entry_of pg) bs) l).
Proof.
  intros He Hd Hn Hk.
  pose proof (bind_all_in_order pg st He Hd Hn Hk) as E.
  split; [exact E|].
  intros pg' w l. rewrite E.
  apply (proj1 (completelyVisible_first_in_enumeration pg' (map (entry_of pg) bs) w)).
Qed.

End RegistryOrderProofs.

Lemma registry_enumeration_witness :
  reachable complete_directive
            (inserted complete_directive two_sections 2%nat "1"
                      (inserted complete_directive two_sections 1%nat "b" boot)) /\
  exists lo,
    enumerated lo
      (keys (elements (inserted complete_directive two_sections 2%nat "1"
                         (inserted complete_directive two_sections 1%nat "b" boot)))).
Proof.
  assert (R : reachable complete_directive
                (inserted complete_directive two_sections 2%nat "1"
                   (inserted complete_directive two_sections 1%nat "b" boot))).
  { apply (@reach_step complete_directive two_sections (Inserted 2%nat "1")).
    - apply (@reach_step complete_directive two_sections (Inserted 1%nat "b")).
      + apply reach_fresh. exact fresh_boot.
      + unfold well_formed, own_key. discriminate.
    - unfold well_formed, own_key. discriminate. }
  split; [exact R|]. exact (registry_enumeration R).
Defined.

Lemma bind_then_unbind_restores_witness :
  reachable default_directive evaluated_once /\
  own_key "c" /\
  has (elements evaluated_once) "c" = false /\
  (elements evaluated_once <> [] ->
   unbind "c" (inserted default_directive one_section 2%nat "c" evaluated_once) =
   evaluated_once).
Proof.
  assert (K : own_key "c") by (unfold own_key; discriminate).
  split; [exact reachable_evaluated_once|]. split; [exact K|].
  split; [reflexivity|].
  exact (proj2 (proj2 (proj2 (proj2 (proj2 (proj2 (proj2
    (@bind_then_unbind_restores default_directive one_section 2%nat "c"
       evaluated_once reachable_evaluated_once K eq_refl)))))))).
Defined.

Lemma binds_keep_bind_order_witness :
  elements boot = [] /\
  NoDup (map snd three_binds) /\
  Forall (fun b => array_index (snd b) = None) three_binds /\
  Forall (fun b => own_key (snd b)) three_binds /\
  keys (elements (bind_all default_directive one_section three_binds boot)) =
  ["intro"; "usage"; "api"].
Proof.
  assert (Hd : NoDup (map snd three_binds)).
  { simpl. repeat constructor; simpl; intuition discriminate. }
  assert (Hn : Forall (fun b => array_index (snd b) = None) three_binds).
  { repeat constructor. }
  assert (Hk : Forall (fun b => own_key (snd b)) three_binds).
  { repeat constructor; unfold own_key; discriminate. }
  split; [reflexivity|]. split; [exact Hd|]. split; [exact Hn|].
  split; [exact Hk|].
  rewrite (proj1 (@binds_keep_bind_order default_directive one_section
                    three_binds boot eq_refl Hd Hn Hk)).
  reflexivity.
Defined.

End RegistryOrder.

(* ================================================================== *)
(** * The policies on registries built by binds *)
(* ================================================================== *)

Module PolicyFacts.

Import JS Host ActiveView Props JSFacts DetectionFacts DirectiveFacts RegistryOrder.
Local Open Scope string_scope.

(** C1, as the source has it.  Pairs bound one after the other into an
    empty registry, under distinct identifiers that are neither canonical
    array indices nor [__proto__], are scanned in the order they were
    bound.  For every viewport height and every advance the partial
    policy returns the link of the first of them whose geometry has
    [top < wHeight] and [bottom >= advance * wHeight], the product being
    the double the language computes, and returns none exactly when every
    pair was measured and none satisfies it.  With a height of 1000 and
    an advance of 0.2, a pair at 300..900 qualifies and a pair at
    1200..1800 does not. *)
Theorem partiallyVisible_first_qualifying
        (D : directive) (pg0 pg : page) (bs : list (node * string))
        (st : state) (wHeight : jsnum) :
  elements st = [] ->
  NoDup (map snd bs) ->
  Forall (fun b => array_index (snd b) = None) bs ->
  Forall (fun b => own_key (snd b)) bs ->
  let els := elements (bind_all D pg0 bs st) in
  let adv := ToNumber (advance (OPTS D)) in
  els = map (entry_of pg0) bs /\
  (forall l, partiallyVisible (OPTS D) pg els wHeight = Normal (Some l) <->
             first_match pg (partial_ok wHeight adv) (map (entry_of pg0) bs) l) /\
  (partiallyVisible (OPTS D) pg els wHeight = Normal None <->
   Forall (rejected pg (partial_ok wHeight adv)) (map (entry_of pg0) bs)) /\
  partial_ok (int 1000) (ratio 2 10) {| top := int 300; bottom := int 900 |} /\
  ~ partial_ok (int 1000) (ratio 2 10) {| top := int 1200; bottom := int 1800 |}.
Proof.
  intros He Hd Hn Hk els adv.
  pose proof (bind_all_in_order D pg0 st He Hd Hn Hk) as E. fold els in E.
  split; [exact E|]. rewrite E.
  destruct (partiallyVisible_first_in_enumeration
              (OPTS D) pg (map (entry_of pg0) bs) wHeight) as [H1 H2].
  split; [exact H1|]. split; [exact H2|].
  split.
  - split; vm_compute; reflexivity.
  - intros [H _]. vm_compute in H. discriminate.
Qed.

Lemma partiallyVisible_first_qualifying_witness :
  elements boot = [] /\
  NoDup (map snd [(2%nat, "b"); (1%nat, "a")]) /\
  Forall (fun b => array_index (snd b) = None) [(2%nat, "b"); (1%nat, "a")] /\
  Forall (fun b => own_key (snd b)) [(2%nat, "b"); (1%nat, "a")] /\
  elements (bind_all default_directive partial_scenario
                     [(2%nat, "b"); (1%nat, "a")] boot) = partial_registry /\
  first_match partial_scenario
              (partial_ok (int 1000) (ToNumber (advance (OPTS default_directive))))
              partial_registry 1%nat.
Proof.
  assert (Hd : NoDup (map snd [(2%nat, "b"); (1%nat, "a")])).
  { simpl. repeat constructor; simpl; intuition discriminate. }
  assert (Hn : Forall (fun b : node * string => array_index (snd b) = None)
                      [(2%nat, "b"); (1%nat, "a")]).
  { repeat constructor. }
  assert (Hk : Forall (fun b : node * string => own_key (snd b))
                      [(2%nat, "b"); (1%nat, "a")]).
  { repeat constructor; unfold own_key; discriminate. }
  split; [reflexivity|]. split; [exact Hd|]. split; [exact Hn|].
  split; [exact Hk|].
  pose proof (@partiallyVisible_first_qualifying
                default_directive partial_scenario partial_scenario
                [(2%nat, "b"); (1%nat, "a")] boot (int 1000)
                eq_refl Hd Hn Hk) as H.
  split; [exact (proj1 H)|].
  apply (proj1 (proj1 (proj2 H) 1%nat)). vm_compute. reflexivity.
Defined.

(** Two runs the claim decides otherwise.  On a page 738 high, with the
    default advance of 0.2, a pair whose bottom is the double nearest
    147.6 is returned: the product the source computes is that same
    double.  On the numbers themselves the bottom lies below the product,
    whether the advance is read as the double nearest 0.2 or as 0.2.
    And with the identifiers [b] and [1] bound in that order, both pairs
    qualifying, the link bound second is returned: the registry
    enumerates the array-index key first. *)
Lemma partiallyVisible_rounds_the_product :
  (activeView no_options = Normal default_directive /\
   elements (bind_all default_directive rounding_page [(1%nat, "a")] boot) =
   [("a", {| link := 1%nat; content := Some 50%nat |})] /\
   partiallyVisible (OPTS default_directive) rounding_page
     (elements (bind_all default_directive rounding_page [(1%nat, "a")] boot))
     (innerHeight rounding_page) = Normal (Some 1%nat) /\
   jmul (ToNumber (advance (OPTS default_directive))) (innerHeight rounding_page) =
   bottom (getBoundingClientRect rounding_page 50%nat) /\
   (exact (top (getBoundingClientRect rounding_page 50%nat)) <
    exact (innerHeight rounding_page))%Q /\
   (exact (bottom (getBoundingClientRect rounding_page 50%nat)) <
    exact (ToNumber (advance (OPTS default_directive))) *
    exact (innerHeight rounding_page))%Q /\
   (exact (bottom (getBoundingClientRect rounding_page 50%nat)) <
    (2 # 10) * (738 # 1))%Q) /\
  (keys (elements (bind_all default_directive two_sections
                            [(1%nat, "b"); (2%nat, "1")] boot)) = ["1"; "b"] /\
   partial_ok (innerHeight two_sections)
              (ToNumber (advance (OPTS default_directive)))
              (getBoundingClientRect two_sections 20%nat) /\
   partial_ok (innerHeight two_sections)
              (ToNumber (advance (OPTS default_directive)))
              (getBoundingClientRect two_sections 21%nat) /\
   partiallyVisible (OPTS default_directive) two_sections
     (elements (bind_all default_directive two_sections
                         [(1%nat, "b"); (2%nat, "1")] boot))
     (innerHeight two_sections) = Normal (Some 2%nat)).
Proof.
  split.
  - split; [reflexivity|]. split; [reflexivity|].
    split; [vm_compute; reflexivity|]. split; [vm_compute; reflexivity|].
    split; [vm_compute; reflexivity|]. split; vm_compute; reflexivity.
  - split; [reflexivity|].
    split; [split; vm_compute; reflexivity|].
    split; [split; vm_compute; reflexivity|].
    vm_compute. reflexivity.
Qed.

(** C2, as the source has it.  Pairs bound one after the other into an
    empty registry, under distinct identifiers that are neither canonical
    array indices nor [__proto__], are scanned in the order they were
    bound.  Pairs with [top > wHeight] or [bottom < 0] are skipped; the
    share of the others is computed in doubles, operation by operation.
    The scan stops at the first pair whose share is positive and reaches
    [largeEnough], and returns it without measuring what follows.  When
    every pair can be measured the result is either none, and then no
    share is positive, or the link of a pair with a positive share that
    no earlier share reaches or ties and that, unless it reached
    [largeEnough], no later share exceeds.  In the scenario of the
    specification the shares are 0.4 and 1. *)
Theorem screenspace_largest_share
        (D : directive) (pg0 pg : page) (bs : list (node * string))
        (st : state) (wHeight : jsnum) :
  elements st = [] ->
  NoDup (map snd bs) ->
  Forall (fun b => array_index (snd b) = None) bs ->
  Forall (fun b => own_key (snd b)) bs ->
  let els := elements (bind_all D pg0 bs st) in
  let large := ToNumber (largeEnough (OPTS D)) in
  els = map (entry_of pg0) bs /\
  (forall pre k el post r,
      els = (pre ++ (k, el) :: post)%list ->
      Forall (resolved pg) pre ->
      (forall ke x, In ke pre -> share_in pg wHeight ke x ->
                    ~ (jgt x zero = true /\ jge x large = true)) ->
      geometry pg el = Some r -> considered wHeight r ->
      jgt (share wHeight r) zero = true -> jge (share wHeight r) large = true ->
      screenspace (OPTS D) pg els wHeight = Normal (Some (link el))) /\
  (Forall (resolved pg) els ->
   (screenspace (OPTS D) pg els wHeight = Normal None /\
    forall ke x, In ke els -> share_in pg wHeight ke x -> jgt x zero = false)
   \/
   (exists pre k el post r,
       els = (pre ++ (k, el) :: post)%list /\
       geometry pg el = Some r /\ considered wHeight r /\
       jgt (share wHeight r) zero = true /\
       screenspace (OPTS D) pg els wHeight = Normal (Some (link el)) /\
       (forall ke x, In ke pre -> share_in pg wHeight ke x ->
                     jle (share wHeight r) x = false /\
                     ~ (jgt x zero = true /\ jge x large = true)) /\
       (jge (share wHeight r) large = true \/
        forall ke x, In ke post -> share_in pg wHeight ke x ->
                     jgt x (share wHeight r) = false))) /\
  (Forall (resolved pg) els ->
   (forall ke x, In ke els -> share_in pg wHeight ke x -> jgt x zero = false) ->
   screenspace (OPTS D) pg els wHeight = Normal None) /\
  share (int 1000) {| top := int (-100); bottom := int 400 |} = ratio 4 10 /\
  share (int 1000) {| top := zero; bottom := int 1000 |} = one.
Proof.
  intros He Hd Hn Hk els large.
  pose proof (bind_all_in_order D pg0 st He Hd Hn Hk) as E. fold els in E.
  split; [exact E|].
  destruct (@screenspace_in_enumeration (OPTS D) pg wHeight large eq_refl els)
    as (H1 & H2 & H3).
  split; [exact H1|]. split; [exact H2|]. split; [exact H3|].
  split; vm_compute; reflexivity.
Qed.

Lemma screenspace_largest_share_witness :
  elements boot = [] /\
  NoDup (map snd [(1%nat, "a"); (2%nat, "b"); (3%nat, "c")]) /\
  Forall (fun b => array_index (snd b) = None)
         [(1%nat, "a"); (2%nat, "b"); (3%nat, "c")] /\
  Forall (fun b => own_key (snd b)) [(1%nat, "a"); (2%nat, "b"); (3%nat, "c")] /\
  elements (bind_all screenspace_directive screenspace_scenario
                     [(1%nat, "a"); (2%nat, "b"); (3%nat, "c")] boot) =
  [pair_A; pair_B; pair_C] /\
  screenspace (OPTS screenspace_directive) screenspace_scenario
              [pair_A; pair_B; pair_C] (int 1000) = Normal (Some 2%nat).
Proof.
  assert (Hd : NoDup (map snd [(1%nat, "a"); (2%nat, "b"); (3%nat, "c")])).
  { simpl. repeat constructor; simpl; intuition discriminate. }
  assert (Hn : Forall (fun b : node * string => array_index (snd b) = None)
                      [(1%nat, "a"); (2%nat, "b"); (3%nat, "c")]).
  { repeat constructor. }
  assert (Hk : Forall (fun b : node * string => own_key (snd b))
                      [(1%nat, "a"); (2%nat, "b"); (3%nat, "c")]).
  { repeat constructor; unfold own_key; discriminate. }
  split; [reflexivity|]. split; [exact Hd|]. split; [exact Hn|].
  split; [exact Hk|].
  pose proof (@screenspace_largest_share
                screenspace_directive screenspace_scenario screenspace_scenario
                [(1%nat, "a"); (2%nat, "b"); (3%nat, "c")] boot (int 1000)
                eq_refl Hd Hn Hk) as H.
  split; [exact (proj1 H)|].
  apply (proj1 (proj2 H) [pair_A] "b" {| link := 2%nat; content := Some 41%nat |}
               [pair_C] {| top := zero; bottom := int 1000 |}).
  - reflexivity.
  - constructor; [|constructor]. eexists. reflexivity.
  - intros ke x [<-|[]] (r & G & _ & ->) [_ H'].
    injection G as <-. vm_compute in H'. discriminate.
  - reflexivity.
  - intros [H'|H']; vm_compute in H'; discriminate.
  - vm_compute. reflexivity.
  - vm_compute. reflexivity.
Defined.

(** Two runs the claim decides otherwise.  With [largeEnough] 0, a pair
    that touches the bottom edge of the viewport is measured and has
    share 0, which reaches the threshold; the scan does not stop there
    and returns the pair bound after it.  With the default threshold,
    the pairs at -100.1..200.2 and at 200.2..400.4 have the same share on
    the numbers themselves, below the threshold; in doubles the second
    share comes out greater and the pair bound second is returned. *)
Lemma screenspace_differs_from_formula :
  (activeView zero_threshold = Normal zero_threshold_directive /\
   elements (bind_all zero_threshold_directive touching_page a_then_b boot) =
   map (entry_of touching_page) a_then_b /\
   considered (innerHeight touching_page) (getBoundingClientRect touching_page 60%nat) /\
   share (innerHeight touching_page) (getBoundingClientRect touching_page 60%nat) = zero /\
   jge (share (innerHeight touching_page) (getBoundingClientRect touching_page 60%nat))
       (ToNumber (largeEnough (OPTS zero_threshold_directive))) = true /\
   screenspace (OPTS zero_threshold_directive) touching_page
     (elements (bind_all zero_threshold_directive touching_page a_then_b boot))
     (innerHeight touching_page) = Normal (Some 2%nat)) /\
  (activeView (only_method (VStr "screenspace")) = Normal screenspace_directive /\
   elements (bind_all screenspace_directive tie_page a_then_b boot) =
   map (entry_of tie_page) a_then_b /\
   (exact_share tie_page 62%nat == exact_share tie_page 63%nat)%Q /\
   (0 < exact_share tie_page 62%nat)%Q /\
   (exact_share tie_page 62%nat <
    exact (ToNumber (largeEnough (OPTS screenspace_directive))))%Q /\
   jlt (share (innerHeight tie_page) (getBoundingClientRect tie_page 62%nat))
       (share (innerHeight tie_page) (getBoundingClientRect tie_page 63%nat)) = true /\
   screenspace (OPTS screenspace_directive) tie_page
     (elements (bind_all screenspace_directive tie_page a_then_b boot))
     (innerHeight tie_page) = Normal (Some 2%nat)).
Proof.
  split.
  - split; [reflexivity|]. split; [reflexivity|].
    split; [intros [H|H]; vm_compute in H; discriminate|].
    split; [vm_compute; reflexivity|]. split; vm_compute; reflexivity.
  - split; [reflexivity|]. split; [reflexivity|].
    split; [vm_compute; reflexivity|]. split; [vm_compute; reflexivity|].
    split; [vm_compute; reflexivity|]. split; vm_compute; reflexivity.
Qed.

End PolicyFacts.

(* ================================================================== *)
(** * More on construction *)
(* ================================================================== *)

Module ConstructionFacts.

Import JS Host ActiveView Props JSFacts ValidationFacts.
Local Open Scope string_scope.

Lemma activeView_normal (u : user_options) (D : directive) :
  activeView u = Normal D <->
  first_invalid (assign_defaults u) = None /\
  D = {| OPTS := assign_defaults u;
         UPDATE_METHOD := lookup_method (method (assign_defaults u)) |}.
Proof.
  unfold activeView, validateOpts.
  destruct (first_invalid (assign_defaults u)) as [[v err]|].
  - split; [discriminate|]. intros [H _]. discriminate.
  - split.
    + intro H. injection H as <-. auto.
    + intros [_ ->]. reflexivity.
Qed.

Lemma unit_accepted_range (v : jsval) :
  unit_accepted v -> unit_number (ToNumber v).
Proof.
  unfold unit_accepted, unit_number, ge_num, le_num. intros (_ & H0 & H1).
  split; [|split; assumption].
  destruct (ToNumber v) as [s|[|]| |s m e]; try reflexivity; discriminate.
Qed.

Lemma activeView_method_defined (u : user_options) (D : directive) :
  activeView u = Normal D -> exists p, UPDATE_METHOD D = Some p.
Proof.
  intro H. apply activeView_normal in H. destruct H as [Hok ->].
  apply first_invalid_none in Hok. destruct Hok as (_ & _ & Hm & _).
  cbn [UPDATE_METHOD].
  destruct Hm as [E|[E|E]]; rewrite E; eexists; reflexivity.
Qed.

(** Every directive [activeView] returns has a class name that is a
    string, a detection method that is one of the three functions, and an
    [advance] and a [largeEnough] that convert to finite numbers between 0
    and 1; its [updateDelay] does not compare below 0. *)
Theorem constructed_directive_usable (u : user_options) (D : directive) :
  activeView u = Normal D ->
  OPTS D = assign_defaults u /\
  (exists s, className (OPTS D) = VStr s) /\
  (exists name p, method (OPTS D) = VStr name /\
                  get DETECTION_METHODS name = Some p /\
                  UPDATE_METHOD D = Some p) /\
  unit_number (ToNumber (advance (OPTS D))) /\
  unit_number (ToNumber (largeEnough (OPTS D))) /\
  jlt (ToNumber (updateDelay (OPTS D))) zero = false.
Proof.
  intro H. apply activeView_normal in H. destruct H as [Hok ->].
  apply first_invalid_none in Hok.
  destruct Hok as (Hc & (_ & Hd) & Hm & Ha & Hl). cbn [OPTS UPDATE_METHOD].
  split; [reflexivity|]. split; [|split; [|split; [|split]]].
  - destruct (className (assign_defaults u)); try discriminate. eexists; reflexivity.
  - destruct Hm as [E|[E|E]]; rewrite E; eexists; eexists;
      (split; [reflexivity|split; reflexivity]).
  - apply unit_accepted_range. exact Ha.
  - apply unit_accepted_range. exact Hl.
  - exact Hd.
Qed.

(** An option passed as [undefined], [null] or a boolean makes
    construction throw, whichever option it is: a property that is present
    replaces the default even when its value is [undefined]. *)
Theorem refuses_non_text_non_number (u : user_options) (v : jsval) :
  passes u v -> not_text_nor_number v -> throws u.
Proof.
  intros Hp Hv. apply throws_iff_first_invalid. intro Hnone.
  apply first_invalid_none in Hnone.
  destruct Hnone as (Hc & (Hd & _) & Hm & (Ha & _) & (Hl & _)).
  unfold assign_defaults, reads_as_number, table_method in *. cbn in *.
  destruct Hp as [E|[E|[E|[E|E]]]]; rewrite E in *; cbn in *;
    destruct Hv as [->|[->|[b ->]]]; cbn in *;
    try discriminate; try congruence;
    try (destruct Hm as [X|[X|X]]; discriminate).
Qed.

Lemma first_invalid_failure (O : options) (v : jsval) (err : string) :
  first_invalid O = Some (v, err) -> first_failure O v.
Proof.
  unfold first_invalid, first_failure, delay_accepted, unit_accepted.
  rewrite <- isString_typeof, <- !isNumber_reads, <- method_check_iff.
  rewrite <- (isBetween_iff (advance O)), <- (isBetween_iff (largeEnough O)).
  destruct (isString (className O)); cbn [negb orb];
    [|intro H; injection H as <- _; left; split; [reflexivity|discriminate]].
  destruct (isNumber (updateDelay O)); cbn [negb orb];
    [|intro H; injection H as <- _; right; left; intuition congruence].
  destruct (lt_num (updateDelay O) zero); cbn [negb orb];
    [intro H; injection H as <- _; right; left; intuition congruence|].
  destruct (isString (method O)); cbn [negb orb];
    [|intro H; injection H as <- _; right; right; left; intuition congruence].
  destruct (hasOwnProperty_method (method O)); cbn [negb orb];
    [|intro H; injection H as <- _; right; right; left; intuition congruence].
  destruct (isNumber (advance O)); cbn [negb orb];
    [|intro H; injection H as <- _; do 3 right; left; intuition congruence].
  destruct (isBetween (advance O) zero one); cbn [negb orb];
    [|intro H; injection H as <- _; do 3 right; left; intuition congruence].
  destruct (isNumber (largeEnough O)); cbn [negb orb];
    [|intro H; injection H as <- _; do 4 right; intuition congruence].
  destruct (isBetween (largeEnough O) zero one); cbn [negb orb];
    [discriminate|intro H; injection H as <- _; do 4 right; intuition congruence].
Qed.

(** The error of a refused option object has the fixed shape prefix,
    text, infix, value, suffix, and the value it shows belongs to the
    first option that fails, in the order [className], [updateDelay],
    [method], [advance], [largeEnough]: a later option is only examined
    when all the earlier ones pass. *)
Theorem error_reports_first_failure (u : user_options) (e : exn) :
  activeView u = Throw e ->
  exists v err,
    e = Error [Text PREFIX; Text err; Text INFIX; Shown v; Text SUFFIX] /\
    first_failure (assign_defaults u) v.
Proof.
  unfold activeView, validateOpts.
  destruct (first_invalid (assign_defaults u)) as [[v err]|] eqn:F; [|discriminate].
  intro H. injection H as <-. exists v, err. split; [reflexivity|].
  exact (first_invalid_failure _ F).
Qed.

Lemma defaults_pass :
  typeof (VStr "active-view-link") = "string" /\
  delay_accepted (VNum (int 50)) /\
  table_method (VStr "partial") /\
  unit_accepted (VNum (ratio 2 10)) /\
  unit_accepted (VNum (ratio 5 10)).
Proof.
  unfold delay_accepted, unit_accepted, reads_as_number, table_method.
  repeat split; try reflexivity; try discriminate. left. reflexivity.
Qed.

(** An option object is refused exactly when one of the options it
    supplies fails its own check; an option that is left out never makes
    construction throw, and two options are never checked against each
    other. *)
Theorem throws_iff_supplied_option_fails (u : user_options) :
  throws u <->
  (exists v, u_className u = Some v /\ typeof v <> "string") \/
  (exists v, u_updateDelay u = Some v /\ ~ delay_accepted v) \/
  (exists v, u_method u = Some v /\ ~ table_method v) \/
  (exists v, u_advance u = Some v /\ ~ unit_accepted v) \/
  (exists v, u_largeEnough u = Some v /\ ~ unit_accepted v).
Proof.
  destruct defaults_pass as (Dc & Dd & Dm & Da & Dl).
  rewrite throws_iff_first_invalid. split.
  - destruct (first_invalid (assign_defaults u)) as [[v err]|] eqn:F; [|congruence].
    intros _. apply first_invalid_failure in F.
    unfold first_failure, assign_defaults in F. cbn in F.
    destruct F as [(_ & H)|[(_ & _ & H)|[(_ & _ & _ & H)|[(_ & _ & _ & _ & H)|(_ & _ & _ & _ & _ & H)]]]].
    + left. destruct (u_className u) as [c|]; [eauto|contradiction].
    + right; left. destruct (u_updateDelay u) as [c|]; [eauto|contradiction].
    + do 2 right; left. destruct (u_method u) as [c|]; [eauto|contradiction].
    + do 3 right; left. destruct (u_advance u) as [c|]; [eauto|contradiction].
    + do 4 right. destruct (u_largeEnough u) as [c|]; [eauto|contradiction].
  - intros H F. apply first_invalid_none in F.
    destruct F as (Hc & Hd & Hm & Ha & Hl).
    unfold assign_defaults in *. cbn in *.
    destruct H as [(v & E & H)|[(v & E & H)|[(v & E & H)|[(v & E & H)|(v & E & H)]]]];
      rewrite E in *; cbn in *; apply H; assumption.
Qed.

Lemma constructed_directive_usable_witness :
  activeView (only_method (VStr "complete")) = Normal complete_directive /\
  UPDATE_METHOD complete_directive = Some completelyVisible_ /\
  unit_number (ToNumber (advance (OPTS complete_directive))).
Proof.
  split; [reflexivity|]. split; [reflexivity|].
  exact (proj1 (proj2 (proj2 (proj2
    (@constructed_directive_usable (only_method (VStr "complete"))
       complete_directive eq_refl))))).
Defined.

Lemma refuses_non_text_non_number_witness :
  passes (only_updateDelay (VBool true)) (VBool true) /\
  not_text_nor_number (VBool true) /\
  throws (only_updateDelay (VBool true)).
Proof.
  assert (P : passes (only_updateDelay (VBool true)) (VBool true))
    by (right; left; reflexivity).
  assert (N : not_text_nor_number (VBool true))
    by (right; right; exists true; reflexivity).
  split; [exact P|]. split; [exact N|].
  exact (@refuses_non_text_non_number _ _ P N).
Defined.

Lemma error_reports_first_failure_witness :
  activeView {| u_className := None; u_updateDelay := Some (VStr "soon");
                u_method := Some (VStr "foo"); u_advance := None;
                u_largeEnough := Some (VNum (int 7)) |} =
  Throw (Error [Text PREFIX;
                Text (quote ++ "updateDelay" ++ quote ++
                      ". Needs to be a number greater than or equal to 0.");
                Text INFIX; Shown (VStr "soon"); Text SUFFIX]) /\
  exists v err,
    Error [Text PREFIX;
           Text (quote ++ "updateDelay" ++ quote ++
                 ". Needs to be a number greater than or equal to 0.");
           Text INFIX; Shown (VStr "soon"); Text SUFFIX] =
    Error [Text PREFIX; Text err; Text INFIX; Shown v; Text SUFFIX].
Proof.
  split; [reflexivity|].
  destruct (@error_reports_first_failure
              {| u_className := None; u_updateDelay := Some (VStr "soon");
                 u_method := Some (VStr "foo"); u_advance := None;
                 u_largeEnough := Some (VNum (int 7)) |} _ eq_refl)
    as (v & err & H & _).
  exists v, err. exact H.
Defined.

Lemma throws_iff_supplied_option_fails_witness :
  (exists v, u_advance {| u_className := None; u_updateDelay := None;
                          u_method := None;
                          u_advance := Some (VNum (ratio 3 2));
                          u_largeEnough := None |} = Some v /\
             ~ unit_accepted v) /\
  throws {| u_className := None; u_updateDelay := None; u_method := None;
            u_advance := Some (VNum (ratio 3 2)); u_largeEnough := None |}.
Proof.
  assert (H : exists v, u_advance {| u_className := None; u_updateDelay := None;
                                     u_method := None;
                                     u_advance := Some (VNum (ratio 3 2));
                                     u_largeEnough := None |} = Some v /\
                        ~ unit_accepted v).
  { exists (VNum (ratio 3 2)). split; [reflexivity|].
    intros (_ & _ & H). vm_compute in H. discriminate. }
  split; [exact H|].
  apply (proj2 (throws_iff_supplied_option_fails _)).
  do 3 right. left. exact H.
Defined.

End ConstructionFacts.

(* ================================================================== *)
(** * More on the detection methods *)
(* ================================================================== *)

Module DetectionMore.

Import JS Host ActiveView Props JSFacts DetectionFacts ConstructionFacts.

Section ScanThrows.
Variable pg : page.
Variable t : rect -> bool.
Variable P : rect -> Prop.
Hypothesis t_P : forall r, t r = true <-> P r.

Lemma scan_throws (els : object entry) (e : exn) :
  scan pg t els = Throw e <-> e = TypeError /\ unresolved_first pg P els.
Proof.
  split.
  - induction els as [|[k el] rest IH]; simpl; [discriminate|].
    unfold getCommonValues. destruct (content el) as [c|] eqn:C.
    + destruct (t (getBoundingClientRect pg c)) eqn:E; [discriminate|].
      intro H. destruct (IH H) as (-> & pre & k' & el' & post & -> & Hpre & Hc).
      split; [reflexivity|].
      exists ((k, el) :: pre), k', el', post.
      split; [reflexivity|]. split; [|exact Hc].
      constructor; [|exact Hpre].
      exists (getBoundingClientRect pg c). unfold geometry. simpl. rewrite C.
      split; [reflexivity|]. intro HP. apply t_P in HP. congruence.
    + intro H. injection H as <-. split; [reflexivity|].
      exists [], k, el, rest. repeat split; auto.
  - intros (-> & pre & k & el & post & -> & Hpre & Hc).
    induction Hpre as [|[k' el'] pre Hrej _ IH]; simpl.
    + unfold getCommonValues. rewrite Hc. reflexivity.
    + change (scan pg t (((k', el') :: pre) ++ (k, el) :: post) = Throw TypeError).
      simpl app. rewrite (@scan_cons_rejected pg t P t_P k' el' _ Hrej). exact IH.
Qed.

End ScanThrows.

(** The partial and the complete policy throw exactly when the scan
    reaches a pair whose content was not found before any pair qualifies,
    and what they throw is a [TypeError]; a missing content behind the
    first qualifying pair is never looked at. *)
Theorem scan_policies_throw_iff
        (O : options) (pg : page) (els : object entry) (wHeight : jsnum) :
  (forall e, partiallyVisible O pg els wHeight = Throw e <->
             e = TypeError /\
             unresolved_first pg (partial_ok wHeight (ToNumber (advance O))) els) /\
  (forall e, completelyVisible pg els wHeight = Throw e <->
             e = TypeError /\ unresolved_first pg (complete_ok wHeight) els).
Proof.
  split; intro e.
  - rewrite partiallyVisible_scan.
    apply scan_throws. intro r. apply partial_test_ok.
  - rewrite completelyVisible_scan.
    apply scan_throws. intro r. apply complete_test_ok.
Qed.

Section ScreenspaceThrows.
Variable O : options.
Variable pg : page.
Variables w L : jsnum.
Hypothesis L_def : ToNumber (largeEnough O) = L.

Ltac turn r b :=
  match goal with
  | |- context [jgt (top r) w || jlt (bottom r) zero] =>
      let S := fresh "Hskip" in
      destruct (jgt (top r) w || jlt (bottom r) zero) eqn:S;
      [ apply (@skipped_not_considered w r) in S
      | apply (@kept_considered w r) in S;
        let B := fresh "Hbig" in
        destruct (jgt (share w r) b) eqn:B;
        [ let Lg := fresh "Hlarge" in
          destruct (jge (share w r) L) eqn:Lg
        | ] ]
  end.

Lemma geometry_content (el : entry) :
  (exists c, content el = Some c /\
             geometry pg el = Some (getBoundingClientRect pg c)) \/
  (content el = None /\ geometry pg el = None).
Proof.
  unfold geometry. destruct (content el) as [c|]; [left; eauto|right; auto].
Qed.

Lemma screenspace_loop_throws (els : object entry) :
  forall (b : jsnum) (cur : option node) (e : exn),
    screenspace_loop O pg w els b cur = Throw e ->
    e = TypeError /\
    exists pre k el post,
      els = pre ++ (k, el) :: post /\
      Forall (resolved pg) pre /\
      (forall ke x, In ke pre -> share_in pg w ke x ->
                    jgt x b = false \/ jge x L = false) /\
      content el = None.
Proof.
  induction els as [|[k el] rest IH]; intros b cur e; [discriminate|].
  destruct (geometry_content el) as [(c & C & G) | (C & _)].
  - rewrite (@screenspace_loop_cons O pg w L L_def k el rest _ b cur G).
    assert (Hres : resolved pg (k, el)) by (eexists; exact G).
    turn (getBoundingClientRect pg c) b; intro H; try discriminate;
      destruct (IH _ _ _ H) as (-> & pre & k' & el' & post & -> & Hpre & Hsh & Hc);
      (split; [reflexivity|]);
      exists ((k, el) :: pre), k', el', post;
      (split; [reflexivity|]); (split; [constructor; assumption|]);
      (split; [|exact Hc]);
      intros ke x [<-|Hin] Hs.
    + destruct (@share_in_head pg w k el _ x G Hs) as [Hcons _]. contradiction.
    + apply (Hsh _ _ Hin Hs).
    + destruct (@share_in_head pg w k el _ x G Hs) as [_ ->]. right. exact Hlarge.
    + destruct (Hsh _ _ Hin Hs) as [X|X]; [|right; exact X].
      right. clear - X Hbig Hlarge. order.
    + destruct (@share_in_head pg w k el _ x G Hs) as [_ ->]. left. exact Hbig.
    + apply (Hsh _ _ Hin Hs).
  - cbn [screenspace_loop]. unfold getCommonValues. rewrite C.
    intro H. injection H as <-. split; [reflexivity|].
    exists [], k, el, rest. split; [reflexivity|]. split; [constructor|].
    split; [intros ke x []|exact C].
Qed.

Lemma screenspace_loop_reaches_gap (pre : object entry) :
  Forall (resolved pg) pre ->
  forall b cur k el post,
    (forall ke x, In ke pre -> share_in pg w ke x ->
                  jgt x b = false \/ jge x L = false) ->
    content el = None ->
    screenspace_loop O pg w (pre ++ (k, el) :: post) b cur = Throw TypeError.
Proof.
  induction 1 as [|[k0 el0] pre [r0 G0] _ IH]; intros b cur k el post Hpre C.
  - cbn [app screenspace_loop]. unfold getCommonValues. rewrite C. reflexivity.
  - simpl in G0. simpl app.
    rewrite (@screenspace_loop_cons O pg w L L_def k0 el0 _ r0 b cur G0).
    assert (Hrest : forall ke x, In ke pre -> share_in pg w ke x ->
                                 jgt x b = false \/ jge x L = false)
      by (intros ke x Hin; apply Hpre; right; exact Hin).
    assert (Hhead : considered w r0 ->
                    jgt (share w r0) b = false \/ jge (share w r0) L = false).
    { intro Hc0. apply (Hpre (k0, el0)); [left; reflexivity|].
      exists r0. auto. }
    turn r0 b.
    + apply IH; assumption.
    + destruct (Hhead Hskip); congruence.
    + apply IH; [|exact C].
      intros ke x Hin Hs. destruct (Hrest _ _ Hin Hs) as [X|X]; [|right; exact X].
      right. clear - X Hbig Hlarge. order.
    + apply IH; assumption.
Qed.

End ScreenspaceThrows.

(** The screenspace policy throws exactly when it reaches a pair whose
    content was not found before a pair with a positive share that
    reaches [largeEnough]; what it throws is a [TypeError]. *)
Theorem screenspace_throws_iff
        (O : options) (pg : page) (els : object entry) (wHeight : jsnum) :
  forall e,
    screenspace O pg els wHeight = Throw e <->
    e = TypeError /\
    exists pre k el post,
      els = pre ++ (k, el) :: post /\
      Forall (resolved pg) pre /\
      (forall ke x, In ke pre -> share_in pg wHeight ke x ->
                    ~ (jgt x zero = true /\
                       jge x (ToNumber (largeEnough O)) = true)) /\
      content el = None.
Proof.
  intro e. unfold screenspace. split.
  - intro H.
    destruct (@screenspace_loop_throws O pg wHeight _ eq_refl els zero None e H)
      as (-> & pre & k & el & post & -> & Hpre & Hsh & Hc).
    split; [reflexivity|]. exists pre, k, el, post.
    split; [reflexivity|]. split; [exact Hpre|]. split; [|exact Hc].
    intros ke x Hin Hs [H1 H2]. destruct (Hsh _ _ Hin Hs); congruence.
  - intros (-> & pre & k & el & post & -> & Hpre & Hsh & Hc).
    apply (@screenspace_loop_reaches_gap O pg wHeight _ eq_refl pre Hpre);
      [|exact Hc].
    intros ke x Hin Hs. specialize (Hsh _ _ Hin Hs).
    destruct (jgt x zero); [|left; reflexivity].
    destruct (jge x (ToNumber (largeEnough O))); [|right; reflexivity].
    exfalso. apply Hsh. split; reflexivity.
Qed.

Section AnyNumbers.
Variable O : options.
Variable pg : page.

Lemma registered_cons k el rest l :
  registered rest l -> registered ((k, el) :: rest) l.
Proof. intros (k' & el' & Hin & Hl). exists k', el'. split; [right|]; assumption. Qed.

Lemma registered_head k el rest : registered ((k, el) :: rest) (link el).
Proof. exists k, el. split; [left|]; reflexivity. Qed.

Lemma partiallyVisible_loop_registered adv' wHeight els l :
  partiallyVisible_loop pg adv' wHeight els = Normal (Some l) -> registered els l.
Proof.
  induction els as [|[k el] rest IH]; simpl; [discriminate|].
  destruct (getCommonValues pg el) as [vals|e]; [|discriminate].
  destruct (jlt (top vals) wHeight && jge (bottom vals) adv').
  - intro H. injection H as <-. apply registered_head.
  - intro H. apply registered_cons. exact (IH H).
Qed.

Lemma completelyVisible_registered wHeight els l :
  completelyVisible pg els wHeight = Normal (Some l) -> registered els l.
Proof.
  induction els as [|[k el] rest IH]; simpl; [discriminate|].
  destruct (getCommonValues pg el) as [vals|e]; [|discriminate].
  destruct (jge (top vals) zero && jle (bottom vals) wHeight).
  - intro H. injection H as <-. apply registered_head.
  - intro H. apply registered_cons. exact (IH H).
Qed.

Lemma screenspace_loop_registered wHeight els :
  forall biggest cur l,
    screenspace_loop O pg wHeight els biggest cur = Normal (Some l) ->
    cur = Some l \/ registered els l.
Proof.
  induction els as [|[k el] rest IH]; intros biggest cur l; simpl.
  - intro H. injection H as ->. left. reflexivity.
  - destruct (getCommonValues pg el) as [vals|e]; [|discriminate].
    repeat match goal with
           | |- context [if ?c then _ else _] => destruct c
           end;
      intro H;
      try (injection H as <-; right; apply registered_head);
      try (destruct (IH _ _ _ H) as [X|X];
           [ (left; exact X) || (injection X as <-; right; apply registered_head)
           | right; apply registered_cons; exact X ]).
Qed.

Lemma resolved_loop_total_partial adv' wHeight els :
  Forall (resolved pg) els ->
  exists r, partiallyVisible_loop pg adv' wHeight els = Normal r.
Proof.
  induction 1 as [|[k el] rest [r G] _ IH]; simpl; [eexists; reflexivity|].
  simpl in G. apply getCommonValues_geometry in G. rewrite G.
  destruct (_ && _); [eexists; reflexivity|exact IH].
Qed.

Lemma resolved_total_complete wHeight els :
  Forall (resolved pg) els ->
  exists r, completelyVisible pg els wHeight = Normal r.
Proof.
  induction 1 as [|[k el] rest [r G] _ IH]; simpl; [eexists; reflexivity|].
  simpl in G. apply getCommonValues_geometry in G. rewrite G.
  destruct (_ && _); [eexists; reflexivity|exact IH].
Qed.

Lemma resolved_loop_total_screenspace wHeight els :
  Forall (resolved pg) els ->
  forall biggest cur,
  exists r, screenspace_loop O pg wHeight els biggest cur = Normal r.
Proof.
  induction 1 as [|[k el] rest [r G] _ IH]; intros biggest cur; simpl;
    [eexists; reflexivity|].
  simpl in G. apply getCommonValues_geometry in G. rewrite G.
  repeat match goal with
         | |- context [if ?c then _ else _] => destruct c
         end;
    solve [eexists; reflexivity | apply IH].
Qed.

End AnyNumbers.

(** Whatever the viewport height and the options, a link the evaluator
    returns is the link of a registered pair: no policy ever invents a
    link or returns one that was unbound. *)
Theorem evaluator_returns_registered_link
        (D : directive) (pg : page) (els : object entry) (l : node) :
  evaluate D pg els = Normal (Some l) -> registered els l.
Proof.
  unfold evaluate. destruct (UPDATE_METHOD D) as [[| |]|]; simpl; [| | |discriminate].
  - apply partiallyVisible_loop_registered.
  - unfold screenspace. intro H.
    destruct (screenspace_loop_registered _ _ _ _ _ _ H) as [X|X];
      [discriminate|exact X].
  - apply completelyVisible_registered.
Qed.

(** A directive that [activeView] returned evaluates a registry in which
    every content was found without throwing, whatever the geometry and
    the viewport height, zero included. *)
Theorem constructed_evaluator_total
        (u : user_options) (D : directive) (pg : page) (els : object entry) :
  activeView u = Normal D ->
  Forall (resolved pg) els ->
  exists r, evaluate D pg els = Normal r.
Proof.
  intros HD Hres.
  destruct (activeView_method_defined _ HD) as [p Hp].
  unfold evaluate. rewrite Hp. destruct p; simpl.
  - apply resolved_loop_total_partial. exact Hres.
  - apply resolved_loop_total_screenspace. exact Hres.
  - apply resolved_total_complete. exact Hres.
Qed.

Lemma scan_policies_throw_iff_witness :
  partiallyVisible (assign_defaults no_options) partial_scenario
                   registry_with_gap (int 1000) = Throw TypeError /\
  unresolved_first partial_scenario
                   (partial_ok (int 1000) (ToNumber (advance (assign_defaults no_options))))
                   registry_with_gap.
Proof.
  split; [reflexivity|].
  apply (proj1 (proj1 (@scan_policies_throw_iff
                         (assign_defaults no_options) partial_scenario
                         registry_with_gap (int 1000))
                      TypeError)).
  reflexivity.
Defined.

Lemma screenspace_throws_iff_witness :
  screenspace (assign_defaults no_options) screenspace_scenario
              [pair_A; pair_C; pair_B] (int 1000) = Throw TypeError.
Proof.
  apply (proj2 (@screenspace_throws_iff
                  (assign_defaults no_options) screenspace_scenario
                  [pair_A; pair_C; pair_B] (int 1000) TypeError)).
  split; [reflexivity|].
  exists [pair_A], "c"%string, {| link := 3%nat; content := None |}, [pair_B].
  split; [reflexivity|]. split; [constructor; [eexists; reflexivity|constructor]|].
  split; [|reflexivity].
  intros ke x [<-|[]] (r & G & _ & ->) [_ H].
  injection G as <-. vm_compute in H. discriminate.
Defined.

Lemma evaluator_returns_registered_link_witness :
  evaluate default_directive one_section (elements evaluated_once) =
  Normal (Some 1%nat) /\
  registered (elements evaluated_once) 1%nat.
Proof.
  split; [reflexivity|].
  exact (@evaluator_returns_registered_link default_directive one_section
           (elements evaluated_once) 1%nat eq_refl).
Defined.

Lemma constructed_evaluator_total_witness :
  activeView (only_method (VStr "screenspace")) =
  Normal {| OPTS := assign_defaults (only_method (VStr "screenspace"));
            UPDATE_METHOD := Some screenspace_ |} /\
  Forall (resolved screenspace_scenario) [pair_A; pair_B] /\
  exists r,
    evaluate {| OPTS := assign_defaults (only_method (VStr "screenspace"));
                UPDATE_METHOD := Some screenspace_ |}
             screenspace_scenario [pair_A; pair_B] = Normal r.
Proof.
  assert (R : Forall (resolved screenspace_scenario) [pair_A; pair_B]).
  { constructor; [eexists; reflexivity|].
    constructor; [eexists; reflexivity|constructor]. }
  split; [reflexivity|]. split; [exact R|].
  exact (@constructed_evaluator_total (only_method (VStr "screenspace")) _
           screenspace_scenario [pair_A; pair_B] eq_refl R).
Defined.

End DetectionMore.

(* ================================================================== *)
(** * The last unbind *)
(* ================================================================== *)

Module UnbindFacts.

Import JS Host ActiveView Props DirectiveFacts.
Local Open Scope string_scope.
Local Open Scope Z_scope.

Section LastUnbind.
Variable D : directive.

Lemma evaluate_empty (pg : page) (p : policy) :
  UPDATE_METHOD D = Some p -> evaluate D pg [] = Normal None.
Proof. intro H. unfold evaluate. rewrite H. destruct p; reflexivity. Qed.

Lemma unbind_last (contentId : string) (st : state) :
  elements (unbind contentId st) = [] ->
  unbind contentId st = set_registry st false false [].
Proof.
  unfold unbind.
  destruct (hasBoundElements (delete (elements st) contentId)) eqn:E; simpl;
    intro H; rewrite H in *; [discriminate|reflexivity].
Qed.

(** Unbinding the last pair resets the flag and removes the listener, so
    that scroll notifications no longer do anything; it neither takes the
    class off the active link nor cancels a pending timer.  When that
    timer fires, the callback evaluates the empty registry, finds no link
    and leaves the class where it was. *)
Theorem last_unbind_keeps_highlight (contentId : string) (st : state) :
  elements (unbind contentId st) = [] ->
  let st' := unbind contentId st in
  isBound st' = false /\ listening st' = false /\
  scroll D st' = st' /\
  pending st' = pending st /\
  oldActive st' = oldActive st /\
  classList st' = classList st /\
  (forall pg p h due T,
      UPDATE_METHOD D = Some p ->
      pending st = [(h, due)] -> now st <= due -> due <= T ->
      let st'' := elapse D pg T st' in
      runs st'' = (runs st ++ [(due, Normal None)])%list /\
      oldActive st'' = oldActive st /\
      classList st'' = classList st /\
      mutations st'' = mutations st /\
      pending st'' = []).
Proof.
  intros He st'. subst st'. rewrite (unbind_last _ _ He).
  split; [reflexivity|]. split; [reflexivity|]. split; [reflexivity|].
  split; [reflexivity|]. split; [reflexivity|]. split; [reflexivity|].
  intros pg p h due T Hp P H1 H2 st''. subst st''.
  unfold elapse. cbn [set_registry now pending].
  destruct (T <? now st) eqn:E; [apply Z.ltb_lt in E; lia|].
  rewrite P. cbn [filter snd negb].
  destruct (due <=? T) eqn:E'; [|apply Z.leb_gt in E'; lia].
  cbn [negb fire set_clock pending]. unfold callback.
  cbn [elements set_clock set_registry]. rewrite (evaluate_empty pg Hp). cbn.
  repeat split; reflexivity.
Qed.

End LastUnbind.

Lemma last_unbind_keeps_highlight_witness :
  elements (unbind "a" scrolled_again) = [] /\
  UPDATE_METHOD default_directive = Some partiallyVisible_ /\
  pending scrolled_again = [(2%nat, 100)] /\
  runs (elapse default_directive one_section 100 (unbind "a" scrolled_again)) =
  [(50, Normal (Some 1%nat)); (100, Normal None)] /\
  oldActive (elapse default_directive one_section 100 (unbind "a" scrolled_again)) =
  Some 1%nat.
Proof.
  split; [reflexivity|]. split; [reflexivity|]. split; [reflexivity|].
  assert (N : now scrolled_again <= 100) by (simpl; lia).
  destruct (proj2 (proj2 (proj2 (proj2 (proj2 (proj2
     (@last_unbind_keeps_highlight default_directive "a" scrolled_again eq_refl))))))
     one_section partiallyVisible_ 2%nat 100 100 eq_refl eq_refl N (Z.le_refl 100))
    as (R & A & _).
  split; [exact R | exact A].
Defined.

End UnbindFacts.

(* ================================================================== *)
(** * Binds in a row *)
(* ================================================================== *)

Module MountFacts.

Import JS Host ActiveView Props DirectiveFacts.
Local Open Scope string_scope.
Local Open Scope Z_scope.

Section Mount.
Variable D : directive.

Lemma bind_all_bound (pg : page) (bs : list (node * string)) :
  forall st,
    isBound st = true ->
    let s := bind_all D pg bs st in
    isBound s = true /\ pending s = pending st /\ now s = now st /\
    runs s = runs st /\ listening s = listening st.
Proof.
  induction bs as [|[el id] bs IH]; intros st B; [simpl; auto|].
  unfold bind_all. simpl fold_left. fold (bind_all D pg bs).
  rewrite (inserted_bound D pg el id st B).
  destruct (IH (set_registry st true (listening st)
                  (set (elements st) id
                       {| link := el; content := getElementById pg id |}))
               eq_refl) as (I1 & I2 & I3 & I4 & I5).
  cbn in *. auto.
Qed.

(** Binds that follow each other without time passing, starting from a
    freshly created directive - a page that mounts all its links at once -
    arm a single timer, at the first bind.  Nothing is evaluated during
    the binds; when the timer fires there is exactly one evaluation, and
    it sees every pair bound in the meantime.  The identifiers are ones
    the registry stores as own properties. *)
Theorem mount_evaluates_once
        (pg : page) (b : node * string) (bs : list (node * string)) (st : state) :
  fresh st ->
  Forall (fun b' => own_key (snd b')) (b :: bs) ->
  let st' := bind_all D pg (b :: bs) st in
  let due := now st + timeout_ms (updateDelay (OPTS D)) in
  pending st' = [(nextHandle st, due)] /\
  runs st' = [] /\
  listening st' = true /\
  (forall pg' T,
      due <= T ->
      runs (elapse D pg' T st') = [(due, evaluate D pg' (elements st'))] /\
      pending (elapse D pg' T st') = []).
Proof.
  intros (B & E & _ & _ & L & P & R) _ st' due.
  destruct b as [el id].
  assert (T1 : one_timer (set_registry st true true (elements st)))
    by (left; exact P).
  pose proof (updateActive_pending D T1) as U6.
  destruct (updateActive_frame D (set_registry st true true (elements st)))
    as (_ & _ & _ & U4 & U5 & _).
  cbn [set_registry now runs nextHandle] in U4, U5, U6.
  destruct (@bind_all_bound pg bs (inserted D pg el id st))
    as (I1 & I2 & I3 & I4 & I5).
  { rewrite (inserted_unbound D pg el id st B). reflexivity. }
  assert (S : st' = bind_all D pg bs (inserted D pg el id st)) by reflexivity.
  rewrite <- S in I1, I2, I3, I4, I5.
  rewrite (inserted_unbound D pg el id st B) in I2, I3, I4, I5.
  cbn [set_registry pending now runs listening] in I2, I3, I4, I5.
  assert (Pend : pending st' = [(nextHandle st, due)]) by (rewrite I2; exact U6).
  assert (Runs : runs st' = []) by (rewrite I4, U5; exact R).
  split; [exact Pend|]. split; [exact Runs|]. split; [exact I5|].
  intros pg' T HT.
  {
    destruct (@elapse_after_due D pg' st' (nextHandle st) due T Pend) as [X Y];
      [|exact HT|].
    + rewrite I3, U4. unfold due.
      pose proof (timeout_ms_nonneg (updateDelay (OPTS D))). lia.
    + rewrite X, Runs. split; [reflexivity|exact Y]. }
Qed.

End Mount.

Lemma mount_evaluates_once_witness :
  fresh boot /\
  Forall (fun b' => own_key (snd b')) [(1%nat, "a"); (2%nat, "c")] /\
  runs (elapse default_directive two_visible 50
          (bind_all default_directive two_visible [(1%nat, "a"); (2%nat, "c")] boot)) =
  [(50, evaluate default_directive two_visible
          (elements (bind_all default_directive two_visible
                       [(1%nat, "a"); (2%nat, "c")] boot)))].
Proof.
  assert (K : Forall (fun b' : node * string => own_key (snd b'))
                     [(1%nat, "a"); (2%nat, "c")])
    by (repeat constructor; unfold own_key; discriminate).
  split; [exact fresh_boot|]. split; [exact K|].
  exact (proj1 (proj2 (proj2 (proj2
    (@mount_evaluates_once default_directive two_visible (1%nat, "a")
       [(2%nat, "c")] boot fresh_boot K))) two_visible 50 (Z.le_refl 50))).
Defined.

End MountFacts.
